(** * mcp_agent.logging.transport: event transports and the async event bus

    A shallow embedding of [src/mcp_agent/logging/transport.py].

    Conventions of the embedding.
    - A coroutine is a function from the state it can touch to a result
      and the new state.  The result is [Ok v] or [Raise e]; the objects
      of Python are passed and returned explicitly.
    - Everything outside the module (the remote endpoint, standard output,
      the rich console, the tracing context, the listeners) lives in a
      [World]: what the module reads from it are oracles, what the module
      does to it are logs that only grow.
    - Events are treated as values.  The one place where the module mutates
      an event ([emit] stamping the tracing ids) returns the mutated event
      next to the result.
    - Calls are sequential: one coroutine runs to its end before the next
      one starts, so [asyncio.Lock] has no content here. *)

From Stdlib Require Import ZArith List String Ascii Bool Lia PeanoNat.
From Stdlib Require Import DecimalString Floats.
Import ListNotations.

Local Open Scope string_scope.
Local Open Scope Z_scope.

(** ** Python exceptions and results *)

(** The classes that matter to [except Exception]: those below the line
    derive from [BaseException] only. *)
Inductive ExnClass : Type :=
| ClientError          (* aiohttp.ClientError: connection failure *)
| TimeoutError         (* asyncio.TimeoutError *)
| ValueError
| TypeError
| RuntimeError
  (* ---- BaseException only ---- *)
| CancelledError       (* asyncio.CancelledError *)
| KeyboardInterrupt
| SystemExit.

Record exn : Type := mkExn { exn_class : ExnClass; exn_str : string }.

(** [isinstance(e, Exception)] *)
Definition isinstance_Exception (e : exn) : bool :=
  match exn_class e with
  | CancelledError | KeyboardInterrupt | SystemExit => false
  | _ => true
  end.

Inductive Result (A : Type) : Type :=
| Ok (a : A)
| Raise (e : exn).
Arguments Ok {A} a.
Arguments Raise {A} e.

Definition raises {A} (r : Result A) : bool :=
  match r with Ok _ => false | Raise _ => true end.

(** ** Events *)

#[local] Unset Elimination Schemes.
Inductive json : Type :=
| JNull
| JBool (b : bool)
| JInt (z : Z)
| JStr (s : string)
| JList (l : list json)
| JDict (d : list (string * json)).
#[local] Set Elimination Schemes.

(** [datetime]: only its rendering is used by this module. *)
Record datetime : Type := mkDatetime { isoformat : string }.

Record EventContext : Type := mkEventContext { dict : list (string * json) }.

(** Modelled from the spec: the class [Event] of [mcp_agent.logging.events],
    which is imported but not part of the file; its fields are those of
    section 3 of the specification, and those [_flush] reads. *)
Record Event : Type := mkEvent {
  timestamp : datetime;
  type : string;
  name : option string;
  namespace : string;
  message : string;
  data : list (string * json);
  trace_id : option string;
  span_id : option string;
  context : option EventContext
}.

(** One element of the JSON array that [_flush] posts. *)
Module Wire.
Record record : Type := mkRecord {
  timestamp : string;
  type : string;
  name : option string;
  namespace : string;
  message : string;
  data : list (string * json);
  trace_id : option string;
  span_id : option string;
  context : option (list (string * json))
}.
End Wire.

(** ** The world around the module *)

(** The ambient span of [opentelemetry.trace]. *)
Module SpanContext.
Record t : Type := mk { trace_id : Z; span_id : Z }.
End SpanContext.

Record Span : Type := mkSpan {
  is_recording : bool;
  get_span_context : SpanContext.t
}.

(** What [session.post] does: the endpoint answers with a status, and
    reading the body gives a text or fails; or the request itself fails. *)
Inductive PostOutcome : Type :=
| Responded (status : Z) (text : Result string)
| PostRaises (e : exn).

Record Post : Type := mkPost {
  post_url : string;
  post_json : list Wire.record
}.

Inductive ConsoleOutput : Type :=
| ConsoleText (segments : list (string * string))   (* text, style *)
| ConsoleJSON (d : list (string * json)).

Inductive ListenerCall : Type :=
| CallStart (listener : string)
| CallStop (listener : string)
| CallHandle (listener : string) (event : Event).

Record World : Type := mkWorld {
  (* oracles *)
  endpoint_answer : nat -> PostOutcome;   (* answer to the n-th POST *)
  get_current_span : Span;                (* trace.get_current_span() *)
  (* logs, oldest first *)
  http_posts : list Post;
  stdout : list string;
  console_out : list ConsoleOutput;
  listener_calls : list ListenerCall
}.

Definition print (line : string) (w : World) : World :=
  mkWorld (endpoint_answer w) (get_current_span w)
          (http_posts w) (stdout w ++ [line]) (console_out w) (listener_calls w).

(** [try: <body> except Exception as e: <handler>], for a body that has
    run to [rw] and a handler that acts on the world and falls through. *)
Definition except_Exception (handler : exn -> World -> World)
           (rw : Result unit * World) : Result unit * World :=
  match rw with
  | (Raise e, w) =>
    if isinstance_Exception e then (Ok tt, handler e w) else (Raise e, w)
  | (Ok v, w) => (Ok v, w)
  end.

Definition console_print (o : ConsoleOutput) (w : World) : World :=
  mkWorld (endpoint_answer w) (get_current_span w)
          (http_posts w) (stdout w) (console_out w ++ [o]) (listener_calls w).

Definition listener_called (c : ListenerCall) (w : World) : World :=
  mkWorld (endpoint_answer w) (get_current_span w)
          (http_posts w) (stdout w) (console_out w) (listener_calls w ++ [c]).

(** [session.post(url, json=body)]: the request is logged and the endpoint
    answers as the oracle says for this request. *)
Definition session_post (url : string) (body : list Wire.record) (w : World)
  : PostOutcome * World :=
  (endpoint_answer w (List.length (http_posts w)),
   mkWorld (endpoint_answer w) (get_current_span w)
           (http_posts w ++ [mkPost url body]) (stdout w) (console_out w)
           (listener_calls w)).

(** What a call leaves behind: its result, the object it ran on, and the
    world. *)
Definition outcome {A S : Type} (x : Result A * S * World) : Result A :=
  fst (fst x).
Definition object {A S : Type} (x : Result A * S * World) : S :=
  snd (fst x).
Definition world {A S : Type} (x : Result A * S * World) : World :=
  snd x.

(** ** class EventTransport(Protocol) *)

Class EventTransport (T : Type) : Type := {
  send_event : T -> Event -> World -> Result unit * T * World
}.

(** ** class NoOpTransport *)

Module NoOpTransport.
Inductive t : Type := mk.

Definition send_event (self : t) (event : Event) (w : World)
  : Result unit * t * World :=
  (Ok tt, self, w).
End NoOpTransport.

#[export] Instance NoOpTransport_EventTransport : EventTransport NoOpTransport.t :=
  {| send_event := NoOpTransport.send_event |}.

(** ** class ConsoleTransport *)

Definition upper_ascii (c : ascii) : ascii :=
  let n := nat_of_ascii c in
  if (97 <=? n)%nat && (n <=? 122)%nat then ascii_of_nat (n - 32) else c.

Fixpoint upper (s : string) : string :=
  match s with
  | EmptyString => EmptyString
  | String c s' => String (upper_ascii c) (upper s')
  end.

Fixpoint dict_get (d : list (string * string)) (k : string) (default : string)
  : string :=
  match d with
  | [] => default
  | (k', v) :: d' => if String.eqb k' k then v else dict_get d' k default
  end.

Module ConsoleTransport.
Record t : Type := mk { log_level_styles : list (string * string) }.

Definition __init__ : t :=
  mk [("info", "bold green"); ("debug", "dim white");
      ("warning", "bold yellow"); ("error", "bold red")].

Definition send_event (self : t) (event : Event) (w : World)
  : Result unit * t * World :=
  let style := dict_get (log_level_styles self) (type event) "white" in
  let namespace :=
    match name event with
    | Some n => if String.eqb n "" then namespace event
                else namespace event ++ "." ++ n
    | None => namespace event
    end in
  let log_text :=
    ConsoleText [("[" ++ upper (type event) ++ "] ", style);
                 (isoformat (timestamp event) ++ " ", "cyan");
                 (namespace ++ " ", "magenta");
                 ("- " ++ message event, "white")] in
  let w := console_print log_text w in
  let w := match data event with
           | [] => w
           | _ :: _ => console_print (ConsoleJSON (data event)) w
           end in
  (Ok tt, self, w).
End ConsoleTransport.

#[export] Instance ConsoleTransport_EventTransport
  : EventTransport ConsoleTransport.t :=
  {| send_event := ConsoleTransport.send_event |}.

(** ** class HTTPTransport *)

Definition str_of_int (z : Z) : string := NilZero.string_of_int (Z.to_int z).

Module HTTPTransport.
(** [aiohttp.ClientSession(headers=..., timeout=ClientTimeout(total=...))] *)
Record ClientSession : Type := mkSession {
  session_headers : list (string * string);
  session_timeout : float
}.

Record t : Type := mk {
  endpoint : string;
  headers : list (string * string);
  batch_size : Z;
  timeout : float;
  batch : list Event;
  _session : option ClientSession
}.

Definition __init__ (endpoint : string)
           (headers : option (list (string * string)))
           (batch_size : Z) (timeout : float) : t :=
  mk endpoint (match headers with Some (_ :: _ as h) => h | _ => [] end)
     batch_size timeout [] None.

Definition set_batch (b : list Event) (self : t) : t :=
  mk (endpoint self) (headers self) (batch_size self) (timeout self)
     b (_session self).

Definition set_session (s : option ClientSession) (self : t) : t :=
  mk (endpoint self) (headers self) (batch_size self) (timeout self)
     (batch self) s.

(** [start]: building the [ClientSession] is taken not to fail. *)
Definition start (self : t) : t :=
  match _session self with
  | Some _ => self
  | None => set_session (Some (mkSession (headers self) (timeout self))) self
  end.

(** The dict built for one event in [_flush]. *)
Definition to_record (event : Event) : Wire.record :=
  Wire.mkRecord (isoformat (timestamp event)) (type event) (name event)
                (namespace event) (message event) (data event)
                (trace_id event) (span_id event)
                (match context event with
                 | Some c => Some (dict c)
                 | None => None
                 end).

(** The body of the [try] in [_flush]. *)
Definition post_batch (self : t) (w : World) : Result unit * World :=
  let events_data := map to_record (batch self) in
  let '(response, w) := session_post (endpoint self) events_data w in
  match response with
  | Responded status text =>
    if 400 <=? status then
      match text with
      | Ok text =>
        (Ok tt,
         print ("Error sending log events to " ++ endpoint self ++ ". "
                ++ "Status: " ++ str_of_int status
                ++ ", Response: " ++ text) w)
      | Raise e => (Raise e, w)
      end
    else (Ok tt, w)
  | PostRaises e => (Raise e, w)
  end.

Definition _flush (self : t) (w : World) : Result unit * t * World :=
  match batch self with
  | [] => (Ok tt, self, w)
  | _ :: _ =>
    let self := match _session self with
                | None => start self
                | Some _ => self
                end in
    let '(r, w) :=
      except_Exception
        (fun e => print ("Error sending log events to " ++ endpoint self
                         ++ ": " ++ exn_str e))
        (post_batch self w) in
    (* finally: *)
    (r, set_batch [] self, w)
  end.

Definition stop (self : t) (w : World) : Result unit * t * World :=
  let '(r, self, w) :=
    match batch self with
    | _ :: _ => _flush self w
    | [] => (Ok tt, self, w)
    end in
  match r with
  | Raise e => (Raise e, self, w)
  | Ok _ =>
    match _session self with
    | Some _ => (Ok tt, set_session None self, w)
    | None => (Ok tt, self, w)
    end
  end.

Definition send_event (self : t) (event : Event) (w : World)
  : Result unit * t * World :=
  (* async with self.lock: *)
  let self := set_batch (batch self ++ [event]) self in
  if batch_size self <=? Z.of_nat (List.length (batch self)) then
    _flush self w
  else (Ok tt, self, w).
End HTTPTransport.

#[export] Instance HTTPTransport_EventTransport
  : EventTransport HTTPTransport.t :=
  {| send_event := HTTPTransport.send_event |}.


(** ** Formatting an integer as [f"{n:0<width>x}"] *)

Definition hex_alphabet : list ascii := list_ascii_of_string "0123456789abcdef".

Definition hex_digit (d : Z) : ascii := nth (Z.to_nat d) hex_alphabet "0"%char.

(** Number of hexadecimal digits of [n >= 0] (one for [0]). *)
Definition hex_len (n : Z) : nat := S (Z.to_nat (Z.log2 n / 4)).

(** The digits of [n >= 0], most significant first. *)
Definition hex_digits (n : Z) : list ascii :=
  map (fun i => hex_digit ((n / 16 ^ Z.of_nat i) mod 16))
      (rev (seq 0 (hex_len n))).

Definition zero_pad (width : nat) (s : list ascii) : list ascii :=
  repeat "0"%char (width - List.length s) ++ s.

(** The sign comes first and the zeros fill what is left of the width. *)
Definition format_0x (width : nat) (n : Z) : string :=
  string_of_list_ascii
    (if n <? 0 then "-"%char :: zero_pad (width - 1) (hex_digits (- n))
     else zero_pad width (hex_digits n)).

Definition is_lower_hex (c : ascii) : bool :=
  existsb (Ascii.eqb c) hex_alphabet.

(** [int(s, 16)] on a string of lowercase hexadecimal digits. *)
Definition hex_value (c : ascii) : Z :=
  let n := Z.of_nat (nat_of_ascii c) in
  if (48 <=? n) && (n <=? 57) then n - 48 else n - 87.

Definition int_of_hex (s : string) : Z :=
  fold_left (fun acc c => acc * 16 + hex_value c) (list_ascii_of_string s) 0.

(** ** Listeners *)

(** Modelled from the spec: the classes [EventListener] and
    [LifecycleAwareListener] of [mcp_agent.logging.listeners], which are
    imported but not part of the file.  A listener is known by what its
    coroutines do when awaited: return, or raise.  [isinstance(listener,
    LifecycleAwareListener)] is the test on the constructor. *)
Inductive Listener : Type :=
| EventListener (handle_event : Event -> Result unit)
| LifecycleAwareListener (handle_event : Event -> Result unit)
                         (start : Result unit) (stop : Result unit).

Definition handle_event (l : Listener) : Event -> Result unit :=
  match l with
  | EventListener h => h
  | LifecycleAwareListener h _ _ => h
  end.

(** ** class AsyncEventBus *)

(** A transport object of any class that implements the protocol. *)
Record AnyTransport : Type := pack {
  transport_class : Type;
  transport_protocol : EventTransport transport_class;
  transport_object : transport_class
}.
Arguments pack {transport_class transport_protocol} transport_object.

#[export] Instance AnyTransport_EventTransport : EventTransport AnyTransport :=
  {| send_event := fun self event w =>
       match self with
       | @pack T P o =>
         let '(r, o, w) := send_event o event w in (r, @pack T P o, w)
       end |}.

(** The handle of [asyncio.create_task(self._process_events())]. *)
Inductive Task : Type := process_events_task.

Module AsyncEventBus.
Record t : Type := mk {
  transport : AnyTransport;
  listeners : list (string * Listener);   (* a dict, in insertion order *)
  _queue : list Event;                    (* oldest first *)
  _task : option Task;
  _running : bool;
  _stop_event : bool                      (* asyncio.Event: is it set *)
}.

Definition __init__ (transport : option AnyTransport) : t :=
  mk (match transport with
      | Some tr => tr
      | None => pack NoOpTransport.mk
      end) [] [] None false false.

Definition set_transport (tr : AnyTransport) (self : t) : t :=
  mk tr (listeners self) (_queue self) (_task self) (_running self)
     (_stop_event self).

Definition set_listeners (ls : list (string * Listener)) (self : t) : t :=
  mk (transport self) ls (_queue self) (_task self) (_running self)
     (_stop_event self).

Definition set_queue (q : list Event) (self : t) : t :=
  mk (transport self) (listeners self) q (_task self) (_running self)
     (_stop_event self).

Definition set_task (k : option Task) (self : t) : t :=
  mk (transport self) (listeners self) (_queue self) k (_running self)
     (_stop_event self).

Definition set_running (b : bool) (self : t) : t :=
  mk (transport self) (listeners self) (_queue self) (_task self) b
     (_stop_event self).

Definition set_stop_event (b : bool) (self : t) : t :=
  mk (transport self) (listeners self) (_queue self) (_task self)
     (_running self) b.

(** [get]: the class attribute [_instance] is passed in and returned; the
    second component is the object the call returns. *)
Definition get (_instance : option t) (transport : option AnyTransport)
  : option t * t :=
  match _instance with
  | None => let self := __init__ transport in (Some self, self)
  | Some self =>
    match transport with
    | Some tr => let self := set_transport tr self in (Some self, self)
    | None => (Some self, self)
    end
  end.

(** [for listener in self.listeners.values(): if isinstance(...): await
    listener.start()] *)
Fixpoint start_listeners (ls : list (string * Listener)) (w : World)
  : Result unit * World :=
  match ls with
  | [] => (Ok tt, w)
  | (_, EventListener _) :: ls' => start_listeners ls' w
  | (n, LifecycleAwareListener _ start _) :: ls' =>
    let w := listener_called (CallStart n) w in
    match start with
    | Ok _ => start_listeners ls' w
    | Raise e => (Raise e, w)
    end
  end.

Definition start (self : t) (w : World) : Result unit * t * World :=
  if _running self then (Ok tt, self, w)
  else
    let '(r, w) := start_listeners (listeners self) w in
    match r with
    | Raise e => (Raise e, self, w)
    | Ok _ =>
      let self := set_stop_event false self in
      let self := set_running true self in
      let self := set_task (Some process_events_task) self in
      (Ok tt, self, w)
    end.

(** [for listener in self.listeners.values(): if isinstance(...): await
    listener.stop()] *)
Fixpoint stop_listeners (ls : list (string * Listener)) (w : World)
  : Result unit * World :=
  match ls with
  | [] => (Ok tt, w)
  | (_, EventListener _) :: ls' => stop_listeners ls' w
  | (n, LifecycleAwareListener _ _ stop) :: ls' =>
    let w := listener_called (CallStop n) w in
    match stop with
    | Ok _ => stop_listeners ls' w
    | Raise e => (Raise e, w)
    end
  end.

(** The fan-out of one event in [_process_events]: every listener is
    handed the event and [gather(..., return_exceptions=True)] collects
    what they do. *)
Definition fan_out (ls : list (string * Listener)) (event : Event) (w : World)
  : list (Result unit) * World :=
  (map (fun nl => handle_event (snd nl) event) ls,
   fold_left (fun w nl => listener_called (CallHandle (fst nl) event) w) ls w).

(** One turn of the [while self._running] loop with an event in the
    queue: failures of listeners are printed. *)
Definition _process_events_turn (self : t) (w : World) : t * World :=
  match _queue self with
  | [] => (self, w)
  | event :: q =>
    let '(results, w) := fan_out (listeners self) event w in
    let w := fold_left
               (fun w r =>
                  match r with
                  | Raise e =>
                    if isinstance_Exception e
                    then print ("Error in listener: " ++ exn_str e) w
                    else w
                  | Ok _ => w
                  end) results w in
    (set_queue q self, w)
  end.

(** The loop [while not self._queue.empty()] at the end of
    [_process_events]: what is left is handed out, nothing is printed. *)
Fixpoint _process_events_remaining (ls : list (string * Listener))
         (q : list Event) (w : World) : World :=
  match q with
  | [] => w
  | event :: q' =>
    _process_events_remaining ls q' (snd (fan_out ls event w))
  end.

(** [stop].  Between [self._running = False] and the loop over the
    listeners the coroutine waits for the background task: [queue.join()]
    when the queue is not empty, then [task.cancel()] and [await task].  The
    task sees the flag or the cancellation, leaves its loop and hands out
    what is left in the queue.  (Which of its two loops hands out the first
    queued event depends on where the task was suspended; they differ in
    what is printed only, and the silent one is taken.)  With events queued
    and no task to take them, [queue.join()] never returns: [None]. *)
Definition stop (self : t) (w : World) : option (Result unit * t * World) :=
  if negb (_running self) then Some (Ok tt, self, w)
  else
    let self := set_running false self in
    let self := set_stop_event true self in
    match _task self, _queue self with
    | None, _ :: _ => None
    | None, [] =>
      let '(r, w) := stop_listeners (listeners self) w in Some (r, self, w)
    | Some _, q =>
      let w := _process_events_remaining (listeners self) q w in
      let self := set_queue [] self in
      let self := set_task None self in
      let '(r, w) := stop_listeners (listeners self) w in Some (r, self, w)
    end.

Definition set_trace_ids (tid sid : option string) (event : Event) : Event :=
  mkEvent (timestamp event) (type event) (name event) (namespace event)
          (message event) (data event) tid sid (context event).

(** "Inject current tracing info if available" *)
Definition inject_tracing (span : Span) (event : Event) : Event :=
  if is_recording span then
    let ctx := get_span_context span in
    set_trace_ids (Some (format_0x 32 (SpanContext.trace_id ctx)))
                  (Some (format_0x 16 (SpanContext.span_id ctx))) event
  else event.

(** [emit]: the second component is the caller's event object after the
    call. *)
Definition emit (self : t) (event : Event) (w : World)
  : Result unit * Event * t * World :=
  if negb (_running self) then (Ok tt, event, self, w)
  else
    let span := get_current_span w in
    let event := inject_tracing span event in
    (* try: await self.transport.send_event(event) *)
    let '(r, tr, w) := send_event (transport self) event w in
    let self := set_transport tr self in
    (* except Exception as e: *)
    let '(r, w) :=
      except_Exception
        (fun e => print ("Error in transport.send_event: " ++ exn_str e))
        (r, w) in
    match r with
    | Raise e => (Raise e, event, self, w)
    | Ok _ => (Ok tt, event, set_queue (_queue self ++ [event]) self, w)
    end.

(** [self.listeners[name] = listener] on an insertion-ordered dict: an
    existing key keeps its place. *)
Fixpoint dict_set (ls : list (string * Listener)) (name : string)
         (listener : Listener) : list (string * Listener) :=
  match ls with
  | [] => [(name, listener)]
  | (n, l) :: ls' =>
    if String.eqb n name then (n, listener) :: ls'
    else (n, l) :: dict_set ls' name listener
  end.

Definition add_listener (self : t) (name : string) (listener : Listener) : t :=
  set_listeners (dict_set (listeners self) name listener) self.

Definition remove_listener (self : t) (name : string) : t :=
  set_listeners
    (filter (fun nl => negb (String.eqb (fst nl) name)) (listeners self)) self.
End AsyncEventBus.

(** ** create_transport *)

(** Modelled from the spec: the class [LoggerSettings] of
    [mcp_agent.config], which is imported but not part of the file; the
    fields are those [create_transport] reads, with the defaults of
    section 6 of the specification. *)
Module LoggerSettings.
Record t : Type := mk {
  type : string;
  http_endpoint : option string;
  http_headers : option (list (string * string));
  batch_size : Z;
  http_timeout : float
}.

Definition default (type : string) : t := mk type None None 100 5%float.
End LoggerSettings.

Definition create_transport (settings : LoggerSettings.t)
  : Result AnyTransport :=
  if String.eqb (LoggerSettings.type settings) "none" then
    Ok (pack NoOpTransport.mk)
  else if String.eqb (LoggerSettings.type settings) "console" then
    Ok (pack ConsoleTransport.__init__)
  else if String.eqb (LoggerSettings.type settings) "http" then
    match LoggerSettings.http_endpoint settings with
    | None | Some "" =>
      Raise (mkExn ValueError "HTTP endpoint required for HTTP transport")
    | Some endpoint =>
      Ok (pack (HTTPTransport.__init__
                  endpoint
                  (LoggerSettings.http_headers settings)
                  (LoggerSettings.batch_size settings)
                  (LoggerSettings.http_timeout settings)))
    end
  else
    Raise (mkExn ValueError ("Unsupported transport type: "
                             ++ LoggerSettings.type settings)).


(** * Callers, observers and sample data *)

(** A caller that awaits [send_event] for each event in turn, whatever
    each call does. *)
Fixpoint send_events (self : HTTPTransport.t) (events : list Event) (w : World)
  : HTTPTransport.t * World :=
  match events with
  | [] => (self, w)
  | event :: events' =>
    let '(_, self, w) := HTTPTransport.send_event self event w in
    send_events self events' w
  end.

(** The records posted so far, over all requests. *)
Definition sent (w : World) : list Wire.record :=
  List.concat (map post_json (http_posts w)).

(** The endpoint fails a request: it answers with a status of 400 or more
    (and the body can be read, or reading it fails with an [Exception]), or
    the request raises an [Exception] such as a connection failure or a
    timeout. *)
Definition failed_delivery (o : PostOutcome) : bool :=
  match o with
  | Responded status (Ok _) => 400 <=? status
  | Responded status (Raise e) => (400 <=? status) && isinstance_Exception e
  | PostRaises e => isinstance_Exception e
  end.

Definition next_answer (w : World) : PostOutcome :=
  endpoint_answer w (List.length (http_posts w)).

(** Sample data. *)
Definition sample_event (msg : string) : Event :=
  mkEvent (mkDatetime "2025-01-01T00:00:00") "info" None "mcp_agent.sample"
          msg [] None None None.

(** [INVALID_SPAN], what [get_current_span] gives outside any span. *)
Definition no_span : Span := mkSpan false (SpanContext.mk 0 0).

Definition quiet_world (answer : nat -> PostOutcome) (span : Span) : World :=
  mkWorld answer span [] [] [] [].

Definition answers_200 : nat -> PostOutcome := fun _ => Responded 200 (Ok "ok").
Definition answers_500 : nat -> PostOutcome :=
  fun _ => Responded 500 (Ok "Internal Server Error").
Definition connection_refused : nat -> PostOutcome :=
  fun _ => PostRaises (mkExn ClientError "Cannot connect to host").

Definition sample_http (batch_size : Z) : HTTPTransport.t :=
  HTTPTransport.__init__ "http://logs.example/ingest" None batch_size 5%float.

(** The world after some more calls to listeners. *)
Definition record_calls (cs : list ListenerCall) (w : World) : World :=
  mkWorld (endpoint_answer w) (get_current_span w)
          (http_posts w) (stdout w) (console_out w) (listener_calls w ++ cs).

(** The names of the listeners that are [LifecycleAwareListener]s, in the
    order of the dict. *)
Definition lifecycle_names (ls : list (string * Listener)) : list string :=
  flat_map (fun nl => match snd nl with
                      | LifecycleAwareListener _ _ _ => [fst nl]
                      | EventListener _ => []
                      end) ls.

Definition starts_cleanly (nl : string * Listener) : bool :=
  match snd nl with
  | LifecycleAwareListener _ (Raise _) _ => false
  | _ => true
  end.

Definition stops_cleanly (nl : string * Listener) : bool :=
  match snd nl with
  | LifecycleAwareListener _ _ (Raise _) => false
  | _ => true
  end.

(** A transport whose [send_event] raises. *)
Module RaisingTransport.
Record t : Type := mk { error : exn }.

Definition send_event (self : t) (event : Event) (w : World)
  : Result unit * t * World :=
  (Raise (error self), self, w).
End RaisingTransport.

#[export] Instance RaisingTransport_EventTransport
  : EventTransport RaisingTransport.t :=
  {| send_event := RaisingTransport.send_event |}.

Definition quiet_listener : Listener :=
  LifecycleAwareListener (fun _ => Ok tt) (Ok tt) (Ok tt).

Definition boom : exn := mkExn RuntimeError "boom".

Definition fails_to_stop : Listener :=
  LifecycleAwareListener (fun _ => Ok tt) (Ok tt) (Raise boom).

Definition fails_to_start : Listener :=
  LifecycleAwareListener (fun _ => Ok tt) (Raise boom) (Ok tt).

Definition failing_transport : AnyTransport :=
  pack (RaisingTransport.mk boom).

Definition cancelled : exn := mkExn CancelledError "".

Definition cancelled_transport : AnyTransport :=
  pack (RaisingTransport.mk cancelled).

Definition running_bus (transport : option AnyTransport)
           (ls : list (string * Listener)) : AsyncEventBus.t :=
  object (AsyncEventBus.start
            (fold_left (fun bus nl => AsyncEventBus.add_listener bus (fst nl)
                                                                 (snd nl))
                       ls (AsyncEventBus.__init__ transport))
            (quiet_world answers_200 no_span)).

Definition sampled_span : Span :=
  mkSpan true (SpanContext.mk 0x0af7651916cd43dd8448eb211c80319c
                              0x00f067aa0ba902b7).

(** [not settings.http_endpoint]: no endpoint, or an empty one. *)
Definition endpoint_missing (settings : LoggerSettings.t) : bool :=
  match LoggerSettings.http_endpoint settings with
  | None | Some EmptyString => true
  | Some (String _ _) => false
  end.

(** [self.listeners.get(name)] *)
Fixpoint dict_lookup (ls : list (string * Listener)) (name : string)
  : option Listener :=
  match ls with
  | [] => None
  | (n, l) :: ls' => if String.eqb n name then Some l else dict_lookup ls' name
  end.

(** [list(self.listeners.keys())] *)
Definition keys (ls : list (string * Listener)) : list string := map fst ls.

(** The calls made when the events of [q] are handed out, one event after
    the other, each to the listeners in the order of the dict. *)
Definition deliveries (ls : list (string * Listener)) (q : list Event)
  : list ListenerCall :=
  flat_map (fun event => map (fun nl => CallHandle (fst nl) event) ls) q.

(** What [_process_events] prints for one event: a line for each listener
    whose [handle_event] fails with an [Exception]. *)
Definition listener_errors (ls : list (string * Listener)) (event : Event)
  : list string :=
  flat_map (fun nl => match handle_event (snd nl) event with
                      | Raise e =>
                        if isinstance_Exception e
                        then [("Error in listener: " ++ exn_str e)%string]
                        else []
                      | Ok _ => []
                      end) ls.

(** A caller that awaits [emit] for each event in turn, whatever each call
    does. *)
Fixpoint emits (self : AsyncEventBus.t) (events : list Event) (w : World)
  : AsyncEventBus.t * World :=
  match events with
  | [] => (self, w)
  | event :: events' =>
    let '(_, _, self, w) := AsyncEventBus.emit self event w in
    emits self events' w
  end.

(** A class of transports whose [send_event] lets no exception other than
    an [Exception] out, and touches neither the listeners nor the tracing
    context. *)
Definition quiet (T : Type) {P : EventTransport T} : Prop :=
  forall (o : T) (event : Event) (w : World),
    match outcome (send_event o event w) with
    | Ok _ => True
    | Raise e => isinstance_Exception e = true
    end
    /\ listener_calls (world (send_event o event w)) = listener_calls w
    /\ get_current_span (world (send_event o event w)) = get_current_span w.

(** What the endpoint does is kept inside [_flush]: no exception that is
    not an [Exception] comes out of the request, or of reading the body of
    an answer of 400 or more. *)
Definition contained (o : PostOutcome) : bool :=
  match o with
  | Responded status (Ok _) => true
  | Responded status (Raise e) =>
    negb (400 <=? status) || isinstance_Exception e
  | PostRaises e => isinstance_Exception e
  end.

Definition is_empty {A : Type} (l : list A) : bool :=
  match l with [] => true | _ :: _ => false end.

Definition noisy_listener : Listener :=
  EventListener (fun _ => Raise boom).

Definition recording_listener : Listener :=
  EventListener (fun _ => Ok tt).

(** * Properties *)

Local Open Scope list_scope.

(** ** HTTPTransport *)

Lemma except_Exception_posts (handler : exn -> World -> World)
      (rw : Result unit * World) :
  (forall e w, http_posts (handler e w) = http_posts w) ->
  http_posts (snd (except_Exception handler rw)) = http_posts (snd rw).
Proof.
  intros Hh. destruct rw as [[v|e] w]; simpl; [reflexivity|].
  destruct (isinstance_Exception e); simpl; auto.
Qed.

Lemma post_batch_posts (self : HTTPTransport.t) (w : World) :
  http_posts (snd (HTTPTransport.post_batch self w))
  = http_posts w ++ [mkPost (HTTPTransport.endpoint self)
                            (map HTTPTransport.to_record
                                 (HTTPTransport.batch self))].
Proof.
  unfold HTTPTransport.post_batch, session_post.
  destruct (endpoint_answer w _) as [status [text|e]|e]; simpl;
    try destruct (400 <=? status); reflexivity.
Qed.

Lemma flush_nonempty (self : HTTPTransport.t) (w : World) :
  HTTPTransport.batch self <> [] ->
  let '(_, self', w') := HTTPTransport._flush self w in
  HTTPTransport.batch self' = []
  /\ HTTPTransport.batch_size self' = HTTPTransport.batch_size self
  /\ HTTPTransport.endpoint self' = HTTPTransport.endpoint self
  /\ http_posts w' =
     http_posts w ++ [mkPost (HTTPTransport.endpoint self)
                             (map HTTPTransport.to_record
                                  (HTTPTransport.batch self))].
Proof.
  intros Hne. unfold HTTPTransport._flush.
  destruct (HTTPTransport.batch self) as [|ev evs] eqn:Hb; [congruence|].
  set (self1 := match HTTPTransport._session self with
                | Some _ => self
                | None => HTTPTransport.start self
                end).
  assert (Hs : HTTPTransport.batch self1 = ev :: evs
               /\ HTTPTransport.endpoint self1 = HTTPTransport.endpoint self
               /\ HTTPTransport.batch_size self1
                  = HTTPTransport.batch_size self).
  { subst self1. unfold HTTPTransport.start.
    destruct (HTTPTransport._session self); simpl; auto. }
  destruct Hs as (Hs1 & Hs2 & Hs3).
  match goal with
  | |- context [except_Exception ?h ?rw] =>
    pose proof (except_Exception_posts h rw (fun _ _ => eq_refl)) as Hp;
      destruct (except_Exception h rw) as [r w']
  end.
  rewrite post_batch_posts, Hs1, Hs2 in Hp.
  cbn [snd HTTPTransport.set_batch HTTPTransport.batch
       HTTPTransport.batch_size HTTPTransport.endpoint] in *.
  repeat split; auto.
Qed.

Lemma flush_clears_batch (self : HTTPTransport.t) (w : World) :
  HTTPTransport.batch (object (HTTPTransport._flush self w)) = [].
Proof.
  destruct (HTTPTransport.batch self) as [|ev evs] eqn:Hb.
  - unfold HTTPTransport._flush. rewrite Hb. exact Hb.
  - pose proof (flush_nonempty self w) as H.
    destruct (HTTPTransport._flush self w) as [[r self'] w'].
    apply H. congruence.
Qed.

Lemma post_batch_failed (handler : exn -> World -> World)
      (self : HTTPTransport.t) (w : World) :
  failed_delivery (next_answer w) = true ->
  fst (except_Exception handler (HTTPTransport.post_batch self w)) = Ok tt.
Proof.
  unfold failed_delivery, next_answer, HTTPTransport.post_batch, session_post.
  destruct (endpoint_answer w _) as [status [text|e]|e]; intros Hf.
  - rewrite Hf. reflexivity.
  - apply andb_prop in Hf. destruct Hf as [Hs He].
    rewrite Hs. simpl. rewrite He. reflexivity.
  - simpl. rewrite Hf. reflexivity.
Qed.

Lemma flush_failed (self : HTTPTransport.t) (w : World) :
  failed_delivery (next_answer w) = true ->
  outcome (HTTPTransport._flush self w) = Ok tt.
Proof.
  intros Hf. unfold HTTPTransport._flush.
  destruct (HTTPTransport.batch self); [reflexivity|].
  match goal with
  | |- context [except_Exception ?h ?rw] =>
    pose proof (post_batch_failed h
                  (match HTTPTransport._session self with
                   | Some _ => self
                   | None => HTTPTransport.start self
                   end) w Hf) as Hp;
      destruct (except_Exception h rw) as [r w']
  end.
  exact Hp.
Qed.

Lemma send_event_step (self : HTTPTransport.t) (event : Event) (w : World) :
  let '(_, self', w') := HTTPTransport.send_event self event w in
  HTTPTransport.batch_size self' = HTTPTransport.batch_size self
  /\ HTTPTransport.endpoint self' = HTTPTransport.endpoint self
  /\ if HTTPTransport.batch_size self
        <=? Z.of_nat (List.length (HTTPTransport.batch self)) + 1
     then HTTPTransport.batch self' = []
          /\ http_posts w' =
             http_posts w
             ++ [mkPost (HTTPTransport.endpoint self)
                        (map HTTPTransport.to_record
                             (HTTPTransport.batch self ++ [event]))]
     else HTTPTransport.batch self' = HTTPTransport.batch self ++ [event]
          /\ http_posts w' = http_posts w.
Proof.
  unfold HTTPTransport.send_event.
  cbn [HTTPTransport.set_batch HTTPTransport.batch HTTPTransport.batch_size].
  rewrite length_app. cbn [List.length].
  replace (Z.of_nat (List.length (HTTPTransport.batch self) + 1))
    with (Z.of_nat (List.length (HTTPTransport.batch self)) + 1) by lia.
  destruct (HTTPTransport.batch_size self <=? _).
  - pose proof (flush_nonempty
                  (HTTPTransport.set_batch (HTTPTransport.batch self ++ [event])
                                           self) w) as H.
    destruct (HTTPTransport._flush _ w) as [[r self'] w'].
    cbn [HTTPTransport.set_batch HTTPTransport.batch HTTPTransport.batch_size
         HTTPTransport.endpoint] in H.
    destruct H as (H1 & H2 & H3 & H4); auto.
    intros Habs. apply app_eq_nil in Habs. destruct Habs. discriminate.
  - cbn [HTTPTransport.set_batch HTTPTransport.batch HTTPTransport.batch_size
         HTTPTransport.endpoint]. auto.
Qed.

Lemma send_events_app (self : HTTPTransport.t) (es : list Event)
      (event : Event) (w : World) :
  send_events self (es ++ [event]) w
  = let '(self1, w1) := send_events self es w in
    let '(_, self2, w2) := HTTPTransport.send_event self1 event w1 in
    (self2, w2).
Proof.
  revert self w. induction es as [|e es IH]; intros self w; simpl.
  - destruct (HTTPTransport.send_event self event w) as [[r s] w']. reflexivity.
  - destruct (HTTPTransport.send_event self e w) as [[r s] w']. apply IH.
Qed.

Lemma sent_post (w w' : World) (p : Post) :
  http_posts w' = http_posts w ++ [p] -> sent w' = sent w ++ post_json p.
Proof.
  unfold sent. intros ->. rewrite map_app, concat_app. simpl.
  rewrite app_nil_r. reflexivity.
Qed.

(** The state of a transport between two calls, [b] being its batch size:
    the buffer is below the threshold (or empty, if the threshold is not
    positive), and what was posted and what is buffered are the events
    accepted so far, in order. *)
Lemma send_events_inv (es : list Event) :
  forall (self : HTTPTransport.t) (w : World),
    Z.of_nat (List.length (HTTPTransport.batch self))
    < Z.max 1 (HTTPTransport.batch_size self) ->
    let '(self', w') := send_events self es w in
    HTTPTransport.batch_size self' = HTTPTransport.batch_size self
    /\ HTTPTransport.endpoint self' = HTTPTransport.endpoint self
    /\ Z.of_nat (List.length (HTTPTransport.batch self'))
       < Z.max 1 (HTTPTransport.batch_size self)
    /\ sent w' ++ map HTTPTransport.to_record (HTTPTransport.batch self')
       = sent w ++ map HTTPTransport.to_record (HTTPTransport.batch self ++ es).
Proof.
  induction es as [|e es IH]; intros self w Hlt; simpl.
  - rewrite app_nil_r. auto.
  - pose proof (send_event_step self e w) as Hstep.
    destruct (HTTPTransport.send_event self e w) as [[r self1] w1].
    destruct Hstep as (Hb & He & Hc).
    specialize (IH self1 w1).
    destruct (HTTPTransport.batch_size self <=? _) eqn:Hcmp.
    + destruct Hc as [Hnil Hposts].
      rewrite Hnil, Hb in IH. simpl in IH.
      specialize (IH ltac:(lia)).
      destruct (send_events self1 es w1) as [self' w'].
      destruct IH as (I1 & I2 & I3 & I4).
      repeat split; try congruence.
      rewrite I4, (sent_post _ _ _ Hposts). simpl.
      rewrite !map_app, <- !app_assoc. reflexivity.
    + destruct Hc as [Hbatch Hposts].
      apply Z.leb_gt in Hcmp.
      rewrite Hbatch, Hb, length_app in IH. simpl in IH.
      specialize (IH ltac:(lia)).
      destruct (send_events self1 es w1) as [self' w'].
      destruct IH as (I1 & I2 & I3 & I4).
      repeat split; try congruence.
      rewrite I4. unfold sent. rewrite Hposts, <- app_assoc. reflexivity.
Qed.

Lemma stop_posts (self : HTTPTransport.t) (w : World) :
  let '(_, self', w') := HTTPTransport.stop self w in
  HTTPTransport.batch self' = []
  /\ http_posts w' =
     http_posts w ++ match HTTPTransport.batch self with
                     | [] => []
                     | _ :: _ =>
                       [mkPost (HTTPTransport.endpoint self)
                               (map HTTPTransport.to_record
                                    (HTTPTransport.batch self))]
                     end.
Proof.
  unfold HTTPTransport.stop.
  destruct (HTTPTransport.batch self) as [|ev evs] eqn:Hb.
  - rewrite app_nil_r.
    destruct (HTTPTransport._session self); simpl; auto.
  - pose proof (flush_nonempty self w) as H.
    destruct (HTTPTransport._flush self w) as [[r self1] w1].
    destruct H as (H1 & _ & _ & H4); [congruence|].
    rewrite Hb in H4.
    destruct r; [destruct (HTTPTransport._session self1)|]; simpl; auto.
Qed.

(** The scenario of the specification: a batch size of 2 and three events
    give two requests, one of two events when the second event arrives and
    one of one event at [stop]. *)
Example three_events_two_posts :
  let '(self, w) := send_events (sample_http 2)
                                [sample_event "a"; sample_event "b";
                                 sample_event "c"]
                                (quiet_world answers_200 no_span) in
  map (fun p => List.length (post_json p)) (http_posts w) = [2%nat]
  /\ map (fun p => List.length (post_json p))
         (http_posts (world (HTTPTransport.stop self w))) = [2%nat; 1%nat].
Proof. vm_compute. split; reflexivity. Qed.

(** C1.  A flush whose request is answered with a status of 400 or more, or
    raises an exception of the transport level (an [Exception]), raises
    neither out of [_flush] nor out of [send_event]; and whatever the
    endpoint does, the buffer is empty after a flush, in particular after a
    [send_event] that reaches the batch size. *)
Theorem failed_flush_is_contained
        (self : HTTPTransport.t) (event : Event) (w : World) :
  failed_delivery (next_answer w) = true ->
  outcome (HTTPTransport._flush self w) = Ok tt
  /\ outcome (HTTPTransport.send_event self event w) = Ok tt
  /\ (forall w' : World,
         HTTPTransport.batch (object (HTTPTransport._flush self w')) = [])
  /\ (forall w' : World,
         HTTPTransport.batch_size self
         <= Z.of_nat (List.length (HTTPTransport.batch self)) + 1 ->
         HTTPTransport.batch
           (object (HTTPTransport.send_event self event w')) = []).
Proof.
  intros Hf. split; [|split; [|split]].
  - apply flush_failed, Hf.
  - unfold HTTPTransport.send_event.
    destruct (_ <=? _); [apply flush_failed, Hf | reflexivity].
  - intros w'. apply flush_clears_batch.
  - intros w' Hle. pose proof (send_event_step self event w') as H.
    destruct (HTTPTransport.send_event self event w') as [[r self'] w''].
    destruct H as (_ & _ & H).
    apply Z.leb_le in Hle. rewrite Hle in H. apply H.
Qed.

Lemma failed_flush_is_contained_witness :
  let self := sample_http 1 in
  let event := sample_event "lost" in
  let w := quiet_world answers_500 no_span in
  failed_delivery (next_answer w) = true
  /\ outcome (HTTPTransport.send_event self event w) = Ok tt
  /\ HTTPTransport.batch (object (HTTPTransport.send_event self event w)) = []
  /\ List.length (http_posts (world (HTTPTransport.send_event self event w)))
     = 1%nat.
Proof.
  cbv zeta.
  assert (Hf : failed_delivery
                 (next_answer (quiet_world answers_500 no_span)) = true)
    by reflexivity.
  destruct (failed_flush_is_contained (sample_http 1) (sample_event "lost")
                                      (quiet_world answers_500 no_span) Hf)
    as (_ & Hs & _ & Hc).
  split; [exact Hf|]. split; [exact Hs|]. split.
  - apply Hc. vm_compute. discriminate.
  - reflexivity.
Defined.

(** C6.  After every [send_event] of every sequence of calls, from any
    state of the transport, the buffer is empty (the call flushed) or
    strictly shorter than the batch size; so it is never longer than a
    batch size that is not negative. *)
Theorem buffer_never_exceeds_batch_size
        (self : HTTPTransport.t) (events : list Event) (w : World) :
  events <> [] ->
  let '(self', _) := send_events self events w in
  HTTPTransport.batch_size self' = HTTPTransport.batch_size self
  /\ (HTTPTransport.batch self' = []
      \/ Z.of_nat (List.length (HTTPTransport.batch self'))
         < HTTPTransport.batch_size self')
  /\ (0 <= HTTPTransport.batch_size self ->
      Z.of_nat (List.length (HTTPTransport.batch self'))
      <= HTTPTransport.batch_size self').
Proof.
  intros Hne.
  destruct (exists_last Hne) as (es & event & ->).
  rewrite send_events_app.
  assert (Hsize : forall es self w,
             HTTPTransport.batch_size (fst (send_events self es w))
             = HTTPTransport.batch_size self).
  { clear. induction es as [|e es IH]; intros self w; simpl; [reflexivity|].
    pose proof (send_event_step self e w) as H.
    destruct (HTTPTransport.send_event self e w) as [[r s] w1].
    rewrite IH. apply H. }
  specialize (Hsize es self w).
  destruct (send_events self es w) as [self1 w1]. simpl in Hsize.
  pose proof (send_event_step self1 event w1) as H.
  destruct (HTTPTransport.send_event self1 event w1) as [[r self2] w2].
  destruct H as (Hb & _ & Hc).
  destruct (_ <=? _) eqn:Hcmp.
  - destruct Hc as [Hnil _]. rewrite Hnil. simpl.
    split; [congruence|]. split; [now left|lia].
  - destruct Hc as [Hbatch _]. apply Z.leb_gt in Hcmp.
    rewrite Hbatch, length_app. simpl.
    split; [congruence|]. split; [right|]; lia.
Qed.

Lemma buffer_never_exceeds_batch_size_witness :
  let '(self', _) := send_events (sample_http 2)
                                 [sample_event "a"; sample_event "b";
                                  sample_event "c"]
                                 (quiet_world connection_refused no_span) in
  HTTPTransport.batch_size self' = 2
  /\ Z.of_nat (List.length (HTTPTransport.batch self')) <= 2.
Proof.
  pose proof (buffer_never_exceeds_batch_size
                (sample_http 2)
                [sample_event "a"; sample_event "b"; sample_event "c"]
                (quiet_world connection_refused no_span)) as H.
  destruct (send_events _ _ _) as [self' w'].
  destruct H as (H1 & _ & H2).
  - discriminate.
  - split; [exact H1|]. rewrite H1 in H2. apply H2. simpl. lia.
Defined.

(** C2.  On a new transport of batch size [b]: the call of [send_event] for
    an event, after those for [es1], posts exactly when it brings the
    buffer to the batch size (to one event when [b] is not positive), and
    then posts the whole buffer and empties it; otherwise it only buffers.
    After the calls for [es], [stop] posts what is left in the buffer, if
    anything, and the records posted over all requests are those of [es],
    each once and in order. *)
Theorem batching_sends_each_event_once
        (url : string) (headers : option (list (string * string)))
        (b : Z) (timeout : float)
        (es1 : list Event) (event : Event) (es : list Event) (w : World) :
  (let '(self1, w1) :=
     send_events (HTTPTransport.__init__ url headers b timeout) es1 w in
   let '(_, self2, w2) := HTTPTransport.send_event self1 event w1 in
   let n := Z.of_nat (List.length (HTTPTransport.batch self1)) + 1 in
   (n = Z.max 1 b
    /\ b <= n
    /\ http_posts w2 =
       http_posts w1
       ++ [mkPost url (map HTTPTransport.to_record
                           (HTTPTransport.batch self1 ++ [event]))]
    /\ HTTPTransport.batch self2 = [])
   \/ (n < b
       /\ http_posts w2 = http_posts w1
       /\ HTTPTransport.batch self2 = HTTPTransport.batch self1 ++ [event]))
  /\
  (let '(self3, w3) :=
     send_events (HTTPTransport.__init__ url headers b timeout) es w in
   let '(_, self4, w4) := HTTPTransport.stop self3 w3 in
   HTTPTransport.batch self4 = []
   /\ http_posts w4 =
      http_posts w3
      ++ match HTTPTransport.batch self3 with
         | [] => []
         | _ :: _ => [mkPost url (map HTTPTransport.to_record
                                      (HTTPTransport.batch self3))]
         end
   /\ sent w4 = sent w ++ map HTTPTransport.to_record es).
Proof.
  set (self0 := HTTPTransport.__init__ url headers b timeout).
  assert (H0 : Z.of_nat (List.length (HTTPTransport.batch self0))
               < Z.max 1 (HTTPTransport.batch_size self0))
    by (simpl; lia).
  split.
  - pose proof (send_events_inv es1 self0 w H0) as Hinv.
    destruct (send_events self0 es1 w) as [self1 w1].
    destruct Hinv as (I1 & I2 & I3 & _).
    change (HTTPTransport.batch_size self0) with b in *.
    change (HTTPTransport.endpoint self0) with url in *.
    pose proof (send_event_step self1 event w1) as Hstep.
    destruct (HTTPTransport.send_event self1 event w1) as [[r self2] w2].
    destruct Hstep as (_ & _ & Hc). rewrite I1, I2 in Hc.
    cbv zeta.
    destruct (b <=? _) eqn:Hcmp.
    + apply Z.leb_le in Hcmp. destruct Hc as [Hnil Hposts].
      left. repeat split; auto; lia.
    + apply Z.leb_gt in Hcmp. destruct Hc as [Hbatch Hposts].
      right. repeat split; auto.
  - pose proof (send_events_inv es self0 w H0) as Hinv.
    destruct (send_events self0 es w) as [self3 w3].
    destruct Hinv as (_ & I2 & _ & I4).
    change (HTTPTransport.endpoint self0) with url in *.
    simpl in I4.
    pose proof (stop_posts self3 w3) as Hstop.
    destruct (HTTPTransport.stop self3 w3) as [[r self4] w4].
    destruct Hstop as [Hnil Hposts]. rewrite I2 in Hposts.
    repeat split; auto.
    rewrite <- I4.
    destruct (HTTPTransport.batch self3) as [|ev evs].
    + rewrite app_nil_r in Hposts. unfold sent. rewrite Hposts.
      simpl. rewrite app_nil_r. reflexivity.
    + apply (sent_post _ _ _ Hposts).
Qed.

(** ** Formatting in hexadecimal *)

Lemma hex_digit_spec (d : Z) :
  0 <= d < 16 ->
  is_lower_hex (hex_digit d) = true /\ hex_value (hex_digit d) = d.
Proof.
  intros Hd.
  assert (Hcases : d = 0 \/ d = 1 \/ d = 2 \/ d = 3 \/ d = 4 \/ d = 5
                   \/ d = 6 \/ d = 7 \/ d = 8 \/ d = 9 \/ d = 10 \/ d = 11
                   \/ d = 12 \/ d = 13 \/ d = 14 \/ d = 15) by lia.
  repeat (destruct Hcases as [-> | Hcases]; [split; reflexivity|]).
  subst d. split; reflexivity.
Qed.

Lemma length_string_of_list_ascii (l : list ascii) :
  String.length (string_of_list_ascii l) = List.length l.
Proof. induction l as [|c l IH]; simpl; congruence. Qed.

Lemma length_hex_digits (n : Z) : List.length (hex_digits n) = hex_len n.
Proof. unfold hex_digits. now rewrite length_map, length_rev, length_seq. Qed.

Lemma pow16 (k : nat) : 16 ^ Z.of_nat k = 2 ^ (4 * Z.of_nat k).
Proof. rewrite Z.pow_mul_r by lia. reflexivity. Qed.

(** A number below [16 ^ width] has at most [width] digits. *)
Lemma hex_len_le (width : nat) (n : Z) :
  (0 < width)%nat -> 0 <= n < 16 ^ Z.of_nat width ->
  (hex_len n <= width)%nat.
Proof.
  intros Hw [Hn Hlt]. unfold hex_len.
  destruct (Z.eq_dec n 0) as [->|Hnz].
  - simpl. lia.
  - rewrite pow16 in Hlt.
    apply Z.log2_lt_pow2 in Hlt; [|lia].
    pose proof (Z.log2_nonneg n) as Hl.
    assert (Z.log2 n / 4 < Z.of_nat width)
      by (apply Z.div_lt_upper_bound; lia).
    assert (0 <= Z.log2 n / 4) by (apply Z.div_pos; lia).
    lia.
Qed.

(** A number is below [16 ^ hex_len]: no digit is lost. *)
Lemma hex_len_enough (n : Z) : 0 <= n -> n < 16 ^ Z.of_nat (hex_len n).
Proof.
  intros Hn. unfold hex_len.
  pose proof (Z.log2_nonneg n) as Hl.
  assert (Hq : 0 <= Z.log2 n / 4) by (apply Z.div_pos; lia).
  rewrite pow16, Nat2Z.inj_succ, Z2Nat.id by exact Hq.
  destruct (Z.eq_dec n 0) as [->|Hnz].
  - apply Z.pow_pos_nonneg; lia.
  - apply Z.log2_lt_pow2; [lia|].
    pose proof (Z.mod_pos_bound (Z.log2 n) 4 ltac:(lia)).
    pose proof (Z.div_mod (Z.log2 n) 4 ltac:(lia)). lia.
Qed.

Lemma int_of_digits (n : Z) (k : nat) (acc : Z) :
  0 <= n ->
  fold_left (fun acc c => acc * 16 + hex_value c)
            (map (fun i => hex_digit ((n / 16 ^ Z.of_nat i) mod 16))
                 (rev (seq 0 k))) acc
  = acc * 16 ^ Z.of_nat k + n mod 16 ^ Z.of_nat k.
Proof.
  intros Hn. revert acc. induction k as [|k IH]; intros acc.
  - simpl. rewrite Z.mod_1_r. lia.
  - rewrite seq_S, rev_app_distr. simpl rev. simpl app. simpl map.
    simpl fold_left. rewrite IH.
    assert (Hd : 0 <= (n / 16 ^ Z.of_nat k) mod 16 < 16)
      by (apply Z.mod_pos_bound; lia).
    destruct (hex_digit_spec _ Hd) as [_ ->].
    rewrite Nat2Z.inj_succ, Z.pow_succ_r by lia.
    assert (Hp : 0 < 16 ^ Z.of_nat k) by (apply Z.pow_pos_nonneg; lia).
    rewrite (Z.mul_comm 16 (16 ^ Z.of_nat k)).
    rewrite (Z.rem_mul_r n (16 ^ Z.of_nat k) 16) by lia.
    ring.
Qed.

Lemma int_of_zeros (k : nat) (l : list ascii) :
  fold_left (fun acc c => acc * 16 + hex_value c) (repeat "0"%char k ++ l) 0
  = fold_left (fun acc c => acc * 16 + hex_value c) l 0.
Proof. induction k as [|k IH]; simpl; auto. Qed.

Lemma hex_digits_lower (n : Z) : forallb is_lower_hex (hex_digits n) = true.
Proof.
  unfold hex_digits. apply forallb_forall. intros c Hc.
  apply in_map_iff in Hc. destruct Hc as (i & <- & _).
  apply hex_digit_spec, Z.mod_pos_bound. lia.
Qed.

Lemma zero_pad_lower (width : nat) (l : list ascii) :
  forallb is_lower_hex l = true ->
  forallb is_lower_hex (zero_pad width l) = true.
Proof.
  intros Hl. unfold zero_pad. rewrite forallb_app, Hl, andb_true_r.
  induction (width - List.length l)%nat as [|k IH]; simpl; auto.
Qed.

(** [f"{n:0<width>x}"] for [0 <= n < 16 ^ width]: exactly [width]
    characters, all of them lowercase hexadecimal digits, that read back
    as [n]. *)
Lemma format_0x_spec (width : nat) (n : Z) :
  (0 < width)%nat -> 0 <= n < 16 ^ Z.of_nat width ->
  String.length (format_0x width n) = width
  /\ forallb is_lower_hex (list_ascii_of_string (format_0x width n)) = true
  /\ int_of_hex (format_0x width n) = n.
Proof.
  intros Hw Hn. unfold format_0x, int_of_hex.
  destruct (n <? 0) eqn:Hneg; [apply Z.ltb_lt in Hneg; lia|].
  rewrite list_ascii_of_string_of_list_ascii, length_string_of_list_ascii.
  split; [|split].
  - unfold zero_pad. rewrite length_app, repeat_length, length_hex_digits.
    pose proof (hex_len_le width n Hw Hn). lia.
  - apply zero_pad_lower, hex_digits_lower.
  - unfold zero_pad. rewrite int_of_zeros. unfold hex_digits.
    rewrite int_of_digits by lia.
    rewrite Z.mod_small; [lia|]. split; [lia|apply hex_len_enough; lia].
Qed.

Example format_0x_255 : format_0x 16 255 = "00000000000000ff"%string.
Proof. reflexivity. Qed.

Example format_0x_wide :
  format_0x 4 (16 ^ 5 + 10) = "10000a"%string.
Proof. reflexivity. Qed.

Example format_0x_negative : format_0x 6 (- 255) = "-000ff"%string.
Proof. reflexivity. Qed.

(** ** AsyncEventBus *)

Lemma record_calls_nil (w : World) : record_calls [] w = w.
Proof. destruct w. unfold record_calls. simpl. now rewrite app_nil_r. Qed.

Lemma record_calls_app (cs1 cs2 : list ListenerCall) (w : World) :
  record_calls cs2 (record_calls cs1 w) = record_calls (cs1 ++ cs2) w.
Proof. unfold record_calls. simpl. now rewrite app_assoc. Qed.

Lemma listener_called_record (c : ListenerCall) (w : World) :
  listener_called c w = record_calls [c] w.
Proof. reflexivity. Qed.

Lemma start_listeners_until_failure
      (pre : list (string * Listener)) (name : string)
      (h : Event -> Result unit) (e : exn) (stop : Result unit)
      (post : list (string * Listener)) :
  forallb starts_cleanly pre = true ->
  forall w : World,
    AsyncEventBus.start_listeners
      (pre ++ (name, LifecycleAwareListener h (Raise e) stop) :: post) w
    = (Raise e,
       record_calls (map CallStart (lifecycle_names pre ++ [name])) w).
Proof.
  induction pre as [|[n l] pre IH]; intros Hclean w.
  - reflexivity.
  - simpl in Hclean. apply andb_prop in Hclean. destruct Hclean as [Hl Hpre].
    destruct l as [h0|h0 [v|e0] st0]; simpl.
    + apply IH, Hpre.
    + rewrite (IH Hpre), listener_called_record, record_calls_app.
      reflexivity.
    + discriminate.
Qed.

Lemma stop_listeners_until_failure
      (pre : list (string * Listener)) (name : string)
      (h : Event -> Result unit) (start : Result unit) (e : exn)
      (post : list (string * Listener)) :
  forallb stops_cleanly pre = true ->
  forall w : World,
    AsyncEventBus.stop_listeners
      (pre ++ (name, LifecycleAwareListener h start (Raise e)) :: post) w
    = (Raise e,
       record_calls (map CallStop (lifecycle_names pre ++ [name])) w).
Proof.
  induction pre as [|[n l] pre IH]; intros Hclean w.
  - reflexivity.
  - simpl in Hclean. apply andb_prop in Hclean. destruct Hclean as [Hl Hpre].
    destruct l as [h0|h0 st0 [v|e0]]; simpl.
    + apply IH, Hpre.
    + rewrite (IH Hpre), listener_called_record, record_calls_app.
      reflexivity.
    + discriminate.
Qed.

(** C9.  When the bus is not running and the [start()] of a
    lifecycle-aware listener raises, those before it in the dict starting
    without failure: [start] raises that exception and leaves the bus as it
    was, not running, with the task handle and the stop signal untouched;
    [start()] has been called on the lifecycle-aware listeners up to that
    one, in order, and on none after it. *)
Theorem failed_listener_start_leaves_bus_stopped
        (self : AsyncEventBus.t) (w : World)
        (pre : list (string * Listener)) (name : string)
        (h : Event -> Result unit) (e : exn) (stop : Result unit)
        (post : list (string * Listener)) :
  AsyncEventBus._running self = false ->
  AsyncEventBus.listeners self
  = pre ++ (name, LifecycleAwareListener h (Raise e) stop) :: post ->
  forallb starts_cleanly pre = true ->
  AsyncEventBus.start self w
  = (Raise e, self,
     record_calls (map CallStart (lifecycle_names pre ++ [name])) w)
  /\ AsyncEventBus._running (object (AsyncEventBus.start self w)) = false
  /\ AsyncEventBus._task (object (AsyncEventBus.start self w))
     = AsyncEventBus._task self
  /\ AsyncEventBus._stop_event (object (AsyncEventBus.start self w))
     = AsyncEventBus._stop_event self.
Proof.
  intros Hrun Hls Hclean.
  assert (Hstart : AsyncEventBus.start self w
                   = (Raise e, self,
                      record_calls
                        (map CallStart (lifecycle_names pre ++ [name])) w)).
  { unfold AsyncEventBus.start.
    rewrite Hrun, Hls, (start_listeners_until_failure _ _ _ _ _ _ Hclean).
    reflexivity. }
  rewrite Hstart. unfold object. simpl. auto.
Qed.

Lemma failed_listener_start_leaves_bus_stopped_witness :
  let self := AsyncEventBus.add_listener
                (AsyncEventBus.add_listener
                   (AsyncEventBus.add_listener
                      (AsyncEventBus.__init__ None) "first" quiet_listener)
                   "second" fails_to_start)
                "third" quiet_listener in
  let w := quiet_world answers_200 no_span in
  AsyncEventBus.start self w
  = (Raise boom, self, record_calls [CallStart "first"; CallStart "second"] w).
Proof.
  cbv zeta.
  refine (proj1 (failed_listener_start_leaves_bus_stopped
                   _ _ [("first"%string, quiet_listener)] "second"
                   (fun _ => Ok tt) boom (Ok tt)
                   [("third"%string, quiet_listener)] _ _ _));
    reflexivity.
Defined.

(** C4.  While the bus is not running, [emit] returns without an error and
    changes nothing: the event is as it was, the bus is as it was (nothing
    is queued, and the transport object is untouched), and so is the world
    (no request, no output, no call to a listener). *)
Theorem emit_when_stopped_is_noop
        (self : AsyncEventBus.t) (event : Event) (w : World) :
  AsyncEventBus._running self = false ->
  AsyncEventBus.emit self event w = (Ok tt, event, self, w).
Proof. intros Hrun. unfold AsyncEventBus.emit. rewrite Hrun. reflexivity. Qed.

Lemma emit_when_stopped_is_noop_witness :
  let self := AsyncEventBus.add_listener
                (AsyncEventBus.__init__ (Some failing_transport))
                "first" quiet_listener in
  let w := quiet_world answers_200 no_span in
  AsyncEventBus.emit self (sample_event "dropped") w
  = (Ok tt, sample_event "dropped", self, w).
Proof.
  cbv zeta. apply emit_when_stopped_is_noop. reflexivity.
Defined.

(** C10.  Once the singleton exists, [get] returns it: with no transport
    it is unchanged; with a transport, the transport is replaced and the
    listeners, the queue, the task handle, the running flag and the stop
    signal are as before. *)
Theorem get_existing_instance
        (self : AsyncEventBus.t) (transport : option AnyTransport) :
  let '(_instance, returned) := AsyncEventBus.get (Some self) transport in
  _instance = Some returned
  /\ AsyncEventBus.transport returned
     = match transport with
       | Some tr => tr
       | None => AsyncEventBus.transport self
       end
  /\ AsyncEventBus.listeners returned = AsyncEventBus.listeners self
  /\ AsyncEventBus._queue returned = AsyncEventBus._queue self
  /\ AsyncEventBus._task returned = AsyncEventBus._task self
  /\ AsyncEventBus._running returned = AsyncEventBus._running self
  /\ AsyncEventBus._stop_event returned = AsyncEventBus._stop_event self
  /\ match transport with
     | Some _ => True
     | None => returned = self
     end.
Proof.
  destruct transport as [tr|]; simpl; repeat split; reflexivity.
Qed.

(** The scenario of the specification: two listeners, the second of which
    fails on every event, and a console transport; three events are
    emitted and the bus is stopped.  No call raises, and the first listener
    is handed the three events in order. *)
Example three_events_reach_the_good_listener :
  let l1 := EventListener (fun _ => Ok tt) in
  let l2 := EventListener (fun _ => Raise boom) in
  let bus0 := running_bus (Some (pack ConsoleTransport.__init__))
                          [("L1"%string, l1); ("L2"%string, l2)] in
  let w0 := quiet_world answers_200 no_span in
  let '(r1, _, bus1, w1) := AsyncEventBus.emit bus0 (sample_event "a") w0 in
  let '(r2, _, bus2, w2) := AsyncEventBus.emit bus1 (sample_event "b") w1 in
  let '(r3, _, bus3, w3) := AsyncEventBus.emit bus2 (sample_event "c") w2 in
  match AsyncEventBus.stop bus3 w3 with
  | Some (r4, bus4, w4) =>
    (r1, r2, r3, r4) = (Ok tt, Ok tt, Ok tt, Ok tt)
    /\ AsyncEventBus._queue bus4 = []
    /\ filter (fun c => match c with
                        | CallHandle "L1" _ => true
                        | _ => false
                        end) (listener_calls w4)
       = [CallHandle "L1" (sample_event "a");
          CallHandle "L1" (sample_event "b");
          CallHandle "L1" (sample_event "c")]
    /\ List.length (console_out w4) = 3%nat
  | None => False
  end.
Proof. vm_compute. repeat split. Qed.

(** C3 as claimed fails: with two lifecycle-aware listeners, the first of
    which raises in [stop()], the bus's [stop] raises and the second
    listener is never stopped. *)
Lemma stop_hook_failure_aborts_teardown :
  let self := running_bus None [("first"%string, fails_to_stop);
                                ("second"%string, quiet_listener)] in
  let w := quiet_world answers_200 no_span in
  AsyncEventBus._running self = true
  /\ In "second"%string (lifecycle_names (AsyncEventBus.listeners self))
  /\ match AsyncEventBus.stop self w with
     | Some (r, _, w') =>
       r = Raise boom /\ ~ In (CallStop "second") (listener_calls w')
     | None => False
     end.
Proof.
  cbv zeta. split; [reflexivity|]. split; [simpl; auto|].
  vm_compute. split; [reflexivity|].
  intros [H|[]]. discriminate H.
Qed.

(** C3, amended.  On a running bus with its task, when the [stop()] of a
    lifecycle-aware listener raises, those before it in the dict stopping
    without failure: the bus's [stop] raises that exception, after it has
    cleared the running flag, set the stop signal, let the task hand out
    the queue and dropped the task; [stop()] has been called on the
    lifecycle-aware listeners up to the failing one, in order, and on none
    after it. *)
Theorem stop_hooks_run_until_first_failure
        (self : AsyncEventBus.t) (w : World)
        (pre : list (string * Listener)) (name : string)
        (h : Event -> Result unit) (start : Result unit) (e : exn)
        (post : list (string * Listener)) :
  AsyncEventBus._running self = true ->
  AsyncEventBus._task self <> None ->
  AsyncEventBus.listeners self
  = pre ++ (name, LifecycleAwareListener h start (Raise e)) :: post ->
  forallb stops_cleanly pre = true ->
  AsyncEventBus.stop self w
  = Some (Raise e,
          AsyncEventBus.set_task None
            (AsyncEventBus.set_queue []
               (AsyncEventBus.set_stop_event true
                  (AsyncEventBus.set_running false self))),
          record_calls
            (map CallStop (lifecycle_names pre ++ [name]))
            (AsyncEventBus._process_events_remaining
               (AsyncEventBus.listeners self) (AsyncEventBus._queue self) w)).
Proof.
  intros Hrun Htask Hls Hclean. unfold AsyncEventBus.stop.
  rewrite Hrun. simpl.
  destruct (AsyncEventBus._task self) as [k|]; [|congruence].
  rewrite Hls, (stop_listeners_until_failure _ _ _ _ _ _ Hclean).
  reflexivity.
Qed.

Lemma stop_hooks_run_until_first_failure_witness :
  let self := running_bus None [("first"%string, quiet_listener);
                                ("second"%string, fails_to_stop);
                                ("third"%string, quiet_listener)] in
  let w := quiet_world answers_200 no_span in
  match AsyncEventBus.stop self w with
  | Some (r, self', w') =>
    r = Raise boom
    /\ AsyncEventBus._running self' = false
    /\ listener_calls w' = [CallStop "first"; CallStop "second"]
  | None => False
  end.
Proof.
  cbv zeta.
  rewrite (stop_hooks_run_until_first_failure
             (running_bus None [("first"%string, quiet_listener);
                                ("second"%string, fails_to_stop);
                                ("third"%string, quiet_listener)])
             (quiet_world answers_200 no_span)
             [("first"%string, quiet_listener)] "second"
             (fun _ => Ok tt) (Ok tt) boom
             [("third"%string, quiet_listener)]
             eq_refl ltac:(discriminate) eq_refl eq_refl).
  repeat split.
Defined.

Lemma emit_event (self : AsyncEventBus.t) (event : Event) (w : World) :
  AsyncEventBus._running self = true ->
  let '(_, event', _, _) := AsyncEventBus.emit self event w in
  event' = AsyncEventBus.inject_tracing (get_current_span w) event.
Proof.
  intros Hrun. unfold AsyncEventBus.emit. rewrite Hrun. cbn [negb].
  destruct (send_event _ _ w) as [[[v|e] tr] w']; unfold except_Exception.
  - reflexivity.
  - destruct (isinstance_Exception e); reflexivity.
Qed.

(** C5 as claimed fails: an exception that is not an [Exception], such as
    the [CancelledError] of a cancelled request, is not caught; [emit]
    raises it and the event is not queued. *)
Lemma emit_reraises_cancellation :
  let self := running_bus (Some cancelled_transport) [] in
  let w := quiet_world answers_200 no_span in
  AsyncEventBus._running self = true
  /\ outcome (send_event (AsyncEventBus.transport self)
                         (sample_event "cancelled") w) = Raise cancelled
  /\ let '(r, _, self', _) :=
         AsyncEventBus.emit self (sample_event "cancelled") w in
     r = Raise cancelled /\ AsyncEventBus._queue self' = [].
Proof. cbv zeta. repeat split. Qed.

(** C5, amended.  While the bus is running, if the transport's
    [send_event] raises an exception that is an [Exception], [emit] prints
    it, returns without raising, and the event is put at the end of the
    queue. *)
Theorem transport_Exception_is_contained
        (self : AsyncEventBus.t) (event : Event) (w : World)
        (e : exn) (tr' : AnyTransport) (w' : World) :
  AsyncEventBus._running self = true ->
  send_event (AsyncEventBus.transport self)
             (AsyncEventBus.inject_tracing (get_current_span w) event) w
  = (Raise e, tr', w') ->
  isinstance_Exception e = true ->
  AsyncEventBus.emit self event w
  = (Ok tt,
     AsyncEventBus.inject_tracing (get_current_span w) event,
     AsyncEventBus.set_queue
       (AsyncEventBus._queue self
        ++ [AsyncEventBus.inject_tracing (get_current_span w) event])
       (AsyncEventBus.set_transport tr' self),
     print ("Error in transport.send_event: " ++ exn_str e)%string w').
Proof.
  intros Hrun Hsend He. unfold AsyncEventBus.emit.
  rewrite Hrun. cbn [negb]. rewrite Hsend.
  unfold except_Exception. rewrite He. reflexivity.
Qed.

Lemma transport_Exception_is_contained_witness :
  let self := running_bus (Some failing_transport) [] in
  let w := quiet_world answers_200 no_span in
  let '(r, _, self', w') := AsyncEventBus.emit self (sample_event "kept") w in
  r = Ok tt
  /\ AsyncEventBus._queue self' = [sample_event "kept"]
  /\ stdout w' = ["Error in transport.send_event: boom"%string].
Proof.
  cbv zeta.
  rewrite (transport_Exception_is_contained
             (running_bus (Some failing_transport) [])
             (sample_event "kept") (quiet_world answers_200 no_span)
             boom failing_transport
             (quiet_world answers_200 no_span) eq_refl eq_refl eq_refl).
  repeat split.
Defined.

(** C8.  While the bus is running, [emit] leaves the event as it is when
    the current span is not recording; when it is recording, the event's
    [trace_id] and [span_id] are the ids of the span's context formatted
    with [032x] and [016x], which for a 128-bit trace id and a 64-bit span
    id are exactly 32 and exactly 16 lowercase hexadecimal digits that read
    back as the ids. *)
Theorem emit_stamps_trace_ids
        (self : AsyncEventBus.t) (event : Event) (w : World) :
  AsyncEventBus._running self = true ->
  let span := get_current_span w in
  let ctx := get_span_context span in
  let '(_, event', _, _) := AsyncEventBus.emit self event w in
  (is_recording span = false /\ event' = event)
  \/ (is_recording span = true
      /\ trace_id event' = Some (format_0x 32 (SpanContext.trace_id ctx))
      /\ span_id event' = Some (format_0x 16 (SpanContext.span_id ctx))
      /\ (0 <= SpanContext.trace_id ctx < 2 ^ 128 ->
          String.length (format_0x 32 (SpanContext.trace_id ctx)) = 32%nat
          /\ forallb is_lower_hex
                     (list_ascii_of_string
                        (format_0x 32 (SpanContext.trace_id ctx))) = true
          /\ int_of_hex (format_0x 32 (SpanContext.trace_id ctx))
             = SpanContext.trace_id ctx)
      /\ (0 <= SpanContext.span_id ctx < 2 ^ 64 ->
          String.length (format_0x 16 (SpanContext.span_id ctx)) = 16%nat
          /\ forallb is_lower_hex
                     (list_ascii_of_string
                        (format_0x 16 (SpanContext.span_id ctx))) = true
          /\ int_of_hex (format_0x 16 (SpanContext.span_id ctx))
             = SpanContext.span_id ctx)).
Proof.
  intros Hrun. cbv zeta.
  pose proof (emit_event self event w Hrun) as Hev.
  destruct (AsyncEventBus.emit self event w) as [[[r event'] self'] w'].
  subst event'. unfold AsyncEventBus.inject_tracing.
  destruct (is_recording (get_current_span w)).
  - right. split; [reflexivity|]. split; [reflexivity|].
    split; [reflexivity|]. split; intros Hrange.
    + apply format_0x_spec; [lia|].
      change (16 ^ Z.of_nat 32) with (2 ^ 128). exact Hrange.
    + apply format_0x_spec; [lia|].
      change (16 ^ Z.of_nat 16) with (2 ^ 64). exact Hrange.
  - left. split; reflexivity.
Qed.

Lemma emit_stamps_trace_ids_witness :
  let '(_, event', _, _) :=
    AsyncEventBus.emit (running_bus None []) (sample_event "traced")
                       (quiet_world answers_200 sampled_span) in
  trace_id event' = Some "0af7651916cd43dd8448eb211c80319c"%string
  /\ span_id event' = Some "00f067aa0ba902b7"%string
  /\ String.length (format_0x 32 0x0af7651916cd43dd8448eb211c80319c) = 32%nat
  /\ String.length (format_0x 16 0x00f067aa0ba902b7) = 16%nat.
Proof.
  pose proof (emit_stamps_trace_ids
                (running_bus None []) (sample_event "traced")
                (quiet_world answers_200 sampled_span) eq_refl) as H.
  cbv zeta in H.
  destruct (AsyncEventBus.emit _ _ _) as [[[r event'] self'] w'].
  destruct H as [[Hrec _]|(_ & Ht & Hs & Htid & Hsid)]; [discriminate Hrec|].
  split; [exact Ht|]. split; [exact Hs|]. split.
  - apply Htid. simpl. lia.
  - apply Hsid. simpl. lia.
Defined.

(** ** create_transport *)

(** C7.  [create_transport] raises (a [ValueError], the error of an
    invalid configuration) exactly when the type is ["http"] and no endpoint
    is set, or the type is none of ["none"], ["console"] and ["http"];
    otherwise it returns a [NoOpTransport], a [ConsoleTransport] or an
    [HTTPTransport] built from the endpoint, headers, batch size and
    timeout of the settings, as the type says. *)
Theorem create_transport_spec (settings : LoggerSettings.t) :
  let type := LoggerSettings.type settings in
  (raises (create_transport settings) = true
   <-> (type = "http"%string /\ endpoint_missing settings = true)
       \/ (type <> "none"%string /\ type <> "console"%string
           /\ type <> "http"%string))
  /\ match create_transport settings with
     | Raise e => exn_class e = ValueError
     | Ok tr =>
       (type = "none"%string /\ tr = pack NoOpTransport.mk)
       \/ (type = "console"%string /\ tr = pack ConsoleTransport.__init__)
       \/ (type = "http"%string
           /\ exists endpoint,
               LoggerSettings.http_endpoint settings = Some endpoint
               /\ endpoint <> ""%string
               /\ tr = pack (HTTPTransport.__init__
                               endpoint
                               (LoggerSettings.http_headers settings)
                               (LoggerSettings.batch_size settings)
                               (LoggerSettings.http_timeout settings)))
     end.
Proof.
  cbv zeta. unfold create_transport, endpoint_missing.
  destruct (String.eqb_spec (LoggerSettings.type settings) "none") as [Hn|Hn].
  { rewrite Hn. simpl. split; [|auto].
    split; [discriminate|].
    intros [[H _]|(H & _)]; [discriminate H|congruence]. }
  destruct (String.eqb_spec (LoggerSettings.type settings) "console")
    as [Hc|Hc].
  { rewrite Hc. simpl. split; [|auto].
    split; [discriminate|].
    intros [[H _]|(_ & H & _)]; [discriminate H|congruence]. }
  destruct (String.eqb_spec (LoggerSettings.type settings) "http") as [Hh|Hh].
  { destruct (LoggerSettings.http_endpoint settings) as [[|c endpoint]|];
      simpl.
    - split; [|reflexivity]. split; auto.
    - split.
      + split; [discriminate|].
        intros [[_ H]|(_ & _ & H)]; [discriminate H|congruence].
      + right. right. split; [exact Hh|].
        exists (String c endpoint). repeat split. discriminate.
    - split; [|reflexivity]. split; auto. }
  simpl. split; [|reflexivity]. split; auto.
Qed.

Lemma create_transport_spec_witness :
  raises (create_transport (LoggerSettings.default "http")) = true
  /\ raises (create_transport (LoggerSettings.default "file")) = true
  /\ raises (create_transport (LoggerSettings.default "console")) = false.
Proof.
  split; [|split].
  - apply (proj1 (create_transport_spec (LoggerSettings.default "http"))).
    left. split; reflexivity.
  - apply (proj1 (create_transport_spec (LoggerSettings.default "file"))).
    right. repeat split; discriminate.
  - destruct (raises (create_transport (LoggerSettings.default "console")))
      eqn:Hr; [|reflexivity].
    apply (proj1 (create_transport_spec (LoggerSettings.default "console")))
      in Hr.
    destruct Hr as [[H _]|(_ & H & _)]; [discriminate H|].
    exfalso. apply H. reflexivity.
Defined.

(** * Further properties *)

(** ** The dict of listeners *)

Lemma dict_lookup_set (ls : list (string * Listener)) (name : string)
      (listener : Listener) (name' : string) :
  dict_lookup (AsyncEventBus.dict_set ls name listener) name'
  = if String.eqb name name' then Some listener else dict_lookup ls name'.
Proof.
  induction ls as [|[n l] ls IH]; simpl.
  - reflexivity.
  - destruct (String.eqb_spec n name) as [->|Hn]; simpl.
    + destruct (String.eqb name name'); reflexivity.
    + rewrite IH.
      destruct (String.eqb_spec n name') as [->|Hn'];
        destruct (String.eqb_spec name name') as [->|Hnn]; congruence.
Qed.

Lemma keys_dict_set (ls : list (string * Listener)) (name : string)
      (listener : Listener) :
  keys (AsyncEventBus.dict_set ls name listener)
  = if existsb (String.eqb name) (keys ls) then keys ls
    else keys ls ++ [name].
Proof.
  unfold keys. induction ls as [|[n l] ls IH]; simpl.
  - reflexivity.
  - rewrite (String.eqb_sym name n).
    destruct (String.eqb_spec n name) as [->|Hn]; simpl.
    + reflexivity.
    + rewrite IH.
      destruct (existsb (String.eqb name) (map fst ls)); reflexivity.
Qed.

Lemma existsb_eqb_In (name : string) (l : list string) :
  existsb (String.eqb name) l = true <-> In name l.
Proof.
  rewrite existsb_exists. split.
  - intros (x & Hx & He). apply String.eqb_eq in He. now subst.
  - intros H. exists name. split; [exact H|apply String.eqb_refl].
Qed.

(** X1.  [add_listener] then a lookup: the name added gives the listener
    added, whether or not the name was there, and every other name gives
    what it gave before; nothing but the dict changes. *)
Theorem add_listener_lookup
        (self : AsyncEventBus.t) (name : string) (listener : Listener)
        (name' : string) :
  dict_lookup (AsyncEventBus.listeners
                 (AsyncEventBus.add_listener self name listener)) name'
  = (if String.eqb name name' then Some listener
     else dict_lookup (AsyncEventBus.listeners self) name')
  /\ AsyncEventBus.set_listeners (AsyncEventBus.listeners self)
       (AsyncEventBus.add_listener self name listener) = self.
Proof.
  split.
  - apply dict_lookup_set.
  - destruct self. reflexivity.
Qed.

(** X2.  [add_listener] keeps the order of the dict: an existing name keeps
    its place (the names are as before), a new name goes to the end; and
    names that were distinct stay distinct. *)
Theorem add_listener_keys
        (self : AsyncEventBus.t) (name : string) (listener : Listener) :
  keys (AsyncEventBus.listeners (AsyncEventBus.add_listener self name listener))
  = (if existsb (String.eqb name) (keys (AsyncEventBus.listeners self))
     then keys (AsyncEventBus.listeners self)
     else keys (AsyncEventBus.listeners self) ++ [name])
  /\ (NoDup (keys (AsyncEventBus.listeners self)) ->
      NoDup (keys (AsyncEventBus.listeners
                     (AsyncEventBus.add_listener self name listener)))).
Proof.
  split; [apply keys_dict_set|].
  intros Hnd. simpl. rewrite keys_dict_set.
  destruct (existsb _ _) eqn:Hex; [exact Hnd|].
  apply NoDup_app; [exact Hnd | constructor; [intros []|constructor] |].
  intros x Hx [<-|[]].
  apply existsb_eqb_In in Hx. congruence.
Qed.

Lemma add_listener_keys_witness :
  let self := AsyncEventBus.add_listener
                (AsyncEventBus.add_listener
                   (AsyncEventBus.__init__ None) "first" quiet_listener)
                "second" quiet_listener in
  keys (AsyncEventBus.listeners
          (AsyncEventBus.add_listener self "first" noisy_listener))
  = ["first"%string; "second"%string]
  /\ NoDup (keys (AsyncEventBus.listeners
                    (AsyncEventBus.add_listener self "first" noisy_listener))).
Proof.
  cbv zeta.
  destruct (add_listener_keys
              (AsyncEventBus.add_listener
                 (AsyncEventBus.add_listener
                    (AsyncEventBus.__init__ None) "first" quiet_listener)
                 "second" quiet_listener)
              "first" noisy_listener) as [Hk Hn].
  split; [exact Hk|]. apply Hn. simpl.
  constructor; [intros [H|[]]; discriminate H|].
  constructor; [intros []|constructor].
Defined.

(** X3.  [remove_listener] then a lookup: the name removed gives nothing,
    every other name gives what it gave before, and the names that are
    left keep their order. *)
Theorem remove_listener_lookup
        (self : AsyncEventBus.t) (name name' : string) :
  dict_lookup (AsyncEventBus.listeners
                 (AsyncEventBus.remove_listener self name)) name'
  = (if String.eqb name name' then None
     else dict_lookup (AsyncEventBus.listeners self) name')
  /\ keys (AsyncEventBus.listeners (AsyncEventBus.remove_listener self name))
     = filter (fun n => negb (String.eqb n name))
              (keys (AsyncEventBus.listeners self)).
Proof.
  simpl. generalize (AsyncEventBus.listeners self) as ls.
  induction ls as [|[n l] ls [IH1 IH2]]; simpl.
  - split; [destruct (String.eqb name name')|]; reflexivity.
  - destruct (String.eqb_spec n name) as [->|Hn]; simpl.
    + split; [|exact IH2]. rewrite IH1.
      destruct (String.eqb name name'); reflexivity.
    + split; [|unfold keys in *; now rewrite IH2]. rewrite IH1.
      destruct (String.eqb_spec n name') as [->|Hn'];
        destruct (String.eqb_spec name name') as [->|Hnn]; congruence.
Qed.

(** X4.  Removing a name that is not in the dict changes nothing. *)
Theorem remove_absent_listener (self : AsyncEventBus.t) (name : string) :
  dict_lookup (AsyncEventBus.listeners self) name = None ->
  AsyncEventBus.remove_listener self name = self.
Proof.
  intros Hnone. unfold AsyncEventBus.remove_listener.
  assert (Hf : filter (fun nl : string * Listener =>
                         negb (String.eqb (fst nl) name))
                      (AsyncEventBus.listeners self)
               = AsyncEventBus.listeners self).
  { revert Hnone. generalize (AsyncEventBus.listeners self) as ls.
    induction ls as [|[n l] ls IH]; simpl; [reflexivity|].
    destruct (String.eqb n name); [discriminate|].
    intros H. simpl. now rewrite IH. }
  rewrite Hf. destruct self. reflexivity.
Qed.

Lemma remove_absent_listener_witness :
  let self := AsyncEventBus.add_listener
                (AsyncEventBus.__init__ None) "first" quiet_listener in
  AsyncEventBus.remove_listener self "second" = self.
Proof. cbv zeta. apply remove_absent_listener. reflexivity. Defined.

(** ** The life cycle of the bus *)

Lemma start_listeners_clean (ls : list (string * Listener)) :
  forallb starts_cleanly ls = true ->
  forall w : World,
    AsyncEventBus.start_listeners ls w
    = (Ok tt, record_calls (map CallStart (lifecycle_names ls)) w).
Proof.
  induction ls as [|[n l] ls IH]; intros Hclean w.
  - simpl. now rewrite record_calls_nil.
  - simpl in Hclean. apply andb_prop in Hclean. destruct Hclean as [Hl Hls].
    destruct l as [h|h [v|e] st]; simpl.
    + apply IH, Hls.
    + rewrite (IH Hls), listener_called_record, record_calls_app.
      reflexivity.
    + discriminate.
Qed.

Lemma stop_listeners_clean (ls : list (string * Listener)) :
  forallb stops_cleanly ls = true ->
  forall w : World,
    AsyncEventBus.stop_listeners ls w
    = (Ok tt, record_calls (map CallStop (lifecycle_names ls)) w).
Proof.
  induction ls as [|[n l] ls IH]; intros Hclean w.
  - simpl. now rewrite record_calls_nil.
  - simpl in Hclean. apply andb_prop in Hclean. destruct Hclean as [Hl Hls].
    destruct l as [h|h st [v|e]]; simpl.
    + apply IH, Hls.
    + rewrite (IH Hls), listener_called_record, record_calls_app.
      reflexivity.
    + discriminate.
Qed.

Lemma fan_out_calls (ls : list (string * Listener)) (event : Event) :
  forall w : World,
    snd (AsyncEventBus.fan_out ls event w)
    = record_calls (map (fun nl => CallHandle (fst nl) event) ls) w.
Proof.
  unfold AsyncEventBus.fan_out. simpl.
  induction ls as [|nl ls IH]; intros w; simpl.
  - now rewrite record_calls_nil.
  - rewrite IH, listener_called_record, record_calls_app. reflexivity.
Qed.

Lemma remaining_calls (ls : list (string * Listener)) (q : list Event) :
  forall w : World,
    AsyncEventBus._process_events_remaining ls q w
    = record_calls (deliveries ls q) w.
Proof.
  induction q as [|event q IH]; intros w;
    cbn [AsyncEventBus._process_events_remaining deliveries flat_map].
  - now rewrite record_calls_nil.
  - rewrite IH, fan_out_calls, record_calls_app. reflexivity.
Qed.

(** X5.  On a bus that is not running, when no listener's [start()] raises,
    [start] returns normally: [start()] has been called once on each
    lifecycle-aware listener, in the order of the dict, and on no other; the
    stop signal is cleared, the bus is running and has its task, and the
    transport, the listeners and the queue are as before. *)
Theorem start_runs_every_hook (self : AsyncEventBus.t) (w : World) :
  AsyncEventBus._running self = false ->
  forallb starts_cleanly (AsyncEventBus.listeners self) = true ->
  AsyncEventBus.start self w
  = (Ok tt,
     AsyncEventBus.mk (AsyncEventBus.transport self)
                      (AsyncEventBus.listeners self)
                      (AsyncEventBus._queue self)
                      (Some process_events_task) true false,
     record_calls
       (map CallStart (lifecycle_names (AsyncEventBus.listeners self))) w).
Proof.
  intros Hrun Hclean. unfold AsyncEventBus.start.
  rewrite Hrun, (start_listeners_clean _ Hclean). reflexivity.
Qed.

Lemma start_runs_every_hook_witness :
  let self := AsyncEventBus.add_listener
                (AsyncEventBus.add_listener
                   (AsyncEventBus.add_listener
                      (AsyncEventBus.__init__ None) "first" quiet_listener)
                   "second" recording_listener)
                "third" fails_to_stop in
  let w := quiet_world answers_200 no_span in
  outcome (AsyncEventBus.start self w) = Ok tt
  /\ AsyncEventBus._running (object (AsyncEventBus.start self w)) = true
  /\ listener_calls (world (AsyncEventBus.start self w))
     = [CallStart "first"; CallStart "third"].
Proof.
  cbv zeta.
  rewrite (start_runs_every_hook
             (AsyncEventBus.add_listener
                (AsyncEventBus.add_listener
                   (AsyncEventBus.add_listener
                      (AsyncEventBus.__init__ None) "first" quiet_listener)
                   "second" recording_listener)
                "third" fails_to_stop)
             (quiet_world answers_200 no_span) eq_refl eq_refl).
  repeat split.
Defined.

(** X6.  [start] is idempotent: after a [start] that returned normally, a
    second [start] returns normally and changes nothing; no listener is
    started twice. *)
Theorem start_twice (self : AsyncEventBus.t) (w : World) :
  outcome (AsyncEventBus.start self w) = Ok tt ->
  AsyncEventBus.start (object (AsyncEventBus.start self w))
                      (world (AsyncEventBus.start self w))
  = (Ok tt, object (AsyncEventBus.start self w),
     world (AsyncEventBus.start self w)).
Proof.
  intros Hok.
  destruct (AsyncEventBus.start self w) as [[r self'] w'] eqn:Hstart.
  unfold outcome, object, world in *. cbn [fst snd] in *. subst r.
  assert (Hrun' : AsyncEventBus._running self' = true).
  { unfold AsyncEventBus.start in Hstart.
    destruct (AsyncEventBus._running self) eqn:Hrun.
    - injection Hstart as <- <-. exact Hrun.
    - destruct (AsyncEventBus.start_listeners _ w) as [[v|e] w0];
        [|discriminate Hstart].
      injection Hstart as <- <-. reflexivity. }
  unfold AsyncEventBus.start. rewrite Hrun'. reflexivity.
Qed.

Lemma start_twice_witness :
  let self := AsyncEventBus.add_listener
                (AsyncEventBus.__init__ None) "first" quiet_listener in
  let w := quiet_world answers_200 no_span in
  listener_calls
    (world (AsyncEventBus.start (object (AsyncEventBus.start self w))
                                (world (AsyncEventBus.start self w))))
  = [CallStart "first"].
Proof.
  cbv zeta.
  rewrite (start_twice
             (AsyncEventBus.add_listener
                (AsyncEventBus.__init__ None) "first" quiet_listener)
             (quiet_world answers_200 no_span) eq_refl).
  reflexivity.
Defined.

Lemma stop_clean (self : AsyncEventBus.t) (w : World) :
  AsyncEventBus._running self = true ->
  AsyncEventBus._task self <> None ->
  forallb stops_cleanly (AsyncEventBus.listeners self) = true ->
  AsyncEventBus.stop self w
  = Some (Ok tt,
          AsyncEventBus.mk (AsyncEventBus.transport self)
                           (AsyncEventBus.listeners self)
                           [] None false true,
          record_calls
            (deliveries (AsyncEventBus.listeners self)
                        (AsyncEventBus._queue self)
             ++ map CallStop (lifecycle_names (AsyncEventBus.listeners self)))
            w).
Proof.
  intros Hrun Htask Hclean. unfold AsyncEventBus.stop.
  rewrite Hrun. simpl.
  destruct (AsyncEventBus._task self) as [k|]; [|congruence].
  rewrite (stop_listeners_clean _ Hclean), remaining_calls, record_calls_app.
  reflexivity.
Qed.

(** X7.  On a running bus with its task, when no listener's [stop()]
    raises, [stop] returns normally: every queued event has been handed to
    every listener, the events in the order of the queue; then [stop()] has
    been called once on each lifecycle-aware listener, in the order of the
    dict; the queue is empty, the task is gone, the bus is not running and
    the stop signal is set; the transport and the listeners are as
    before. *)
Theorem stop_hands_out_the_queue (self : AsyncEventBus.t) (w : World) :
  AsyncEventBus._running self = true ->
  AsyncEventBus._task self <> None ->
  forallb stops_cleanly (AsyncEventBus.listeners self) = true ->
  match AsyncEventBus.stop self w with
  | Some (r, self', w') =>
    r = Ok tt
    /\ self' = AsyncEventBus.mk (AsyncEventBus.transport self)
                                (AsyncEventBus.listeners self)
                                [] None false true
    /\ listener_calls w'
       = listener_calls w
         ++ deliveries (AsyncEventBus.listeners self)
                       (AsyncEventBus._queue self)
         ++ map CallStop (lifecycle_names (AsyncEventBus.listeners self))
  | None => False
  end.
Proof.
  intros Hrun Htask Hclean.
  rewrite (stop_clean self w Hrun Htask Hclean). repeat split.
Qed.

Lemma stop_hands_out_the_queue_witness :
  let self := AsyncEventBus.set_queue
                [sample_event "a"; sample_event "b"]
                (running_bus None [("L1"%string, recording_listener);
                                   ("L2"%string, quiet_listener)]) in
  let w := quiet_world answers_200 no_span in
  match AsyncEventBus.stop self w with
  | Some (r, self', w') =>
    r = Ok tt
    /\ AsyncEventBus._queue self' = []
    /\ listener_calls w'
       = [CallHandle "L1" (sample_event "a");
          CallHandle "L2" (sample_event "a");
          CallHandle "L1" (sample_event "b");
          CallHandle "L2" (sample_event "b");
          CallStop "L2"]
  | None => False
  end.
Proof.
  cbv zeta.
  pose proof (stop_hands_out_the_queue
                (AsyncEventBus.set_queue
                   [sample_event "a"; sample_event "b"]
                   (running_bus None [("L1"%string, recording_listener);
                                      ("L2"%string, quiet_listener)]))
                (quiet_world answers_200 no_span)
                eq_refl ltac:(discriminate) eq_refl) as H.
  destruct (AsyncEventBus.stop _ _) as [[[r self'] w']|]; [|exact H].
  destruct H as (Hr & Hs & Hc). rewrite Hr, Hs, Hc. repeat split.
Defined.

(** X8.  [stop] is idempotent, also after a failure: once [stop] has
    returned, normally or with the exception of a listener, a second [stop]
    returns normally and changes nothing.  No listener is stopped twice, and
    a listener that a failed [stop] did not reach is not stopped by
    stopping again. *)
Theorem stop_twice (self : AsyncEventBus.t) (w : World)
        (r : Result unit) (self' : AsyncEventBus.t) (w' : World) :
  AsyncEventBus.stop self w = Some (r, self', w') ->
  AsyncEventBus._running self' = false
  /\ AsyncEventBus.stop self' w' = Some (Ok tt, self', w').
Proof.
  unfold AsyncEventBus.stop at 1.
  destruct (AsyncEventBus._running self) eqn:Hrun; simpl.
  - destruct (AsyncEventBus._task self) as [k|];
      [|destruct (AsyncEventBus._queue self); [|discriminate]];
      destruct (AsyncEventBus.stop_listeners _ _) as [r0 w0];
      intros H; injection H as <- <- <-; split; reflexivity.
  - intros H. injection H as <- <- <-. split; [exact Hrun|].
    unfold AsyncEventBus.stop. rewrite Hrun. reflexivity.
Qed.

Lemma stop_twice_witness :
  let self := running_bus None [("first"%string, fails_to_stop);
                                ("second"%string, quiet_listener)] in
  let w := quiet_world answers_200 no_span in
  match AsyncEventBus.stop self w with
  | Some (r, self', w') =>
    r = Raise boom
    /\ AsyncEventBus.stop self' w' = Some (Ok tt, self', w')
    /\ listener_calls w' = [CallStop "first"]
  | None => False
  end.
Proof.
  cbv zeta.
  destruct (AsyncEventBus.stop
              (running_bus None [("first"%string, fails_to_stop);
                                 ("second"%string, quiet_listener)])
              (quiet_world answers_200 no_span))
    as [[[r self'] w']|] eqn:Hstop; [|discriminate Hstop].
  pose proof (stop_twice _ _ _ _ _ Hstop) as [_ Htwice].
  vm_compute in Hstop. injection Hstop as <- <- <-.
  split; [reflexivity|]. split; [exact Htwice|reflexivity].
Defined.

(** ** Dispatch *)

Lemma print_errors (results : list (Result unit)) :
  forall w : World,
    let w' := fold_left
                (fun w r =>
                   match r with
                   | Raise e =>
                     if isinstance_Exception e
                     then print ("Error in listener: " ++ exn_str e)%string w
                     else w
                   | Ok _ => w
                   end) results w in
    stdout w'
    = stdout w
      ++ flat_map (fun r => match r with
                            | Raise e =>
                              if isinstance_Exception e
                              then [("Error in listener: "
                                     ++ exn_str e)%string]
                              else []
                            | Ok _ => []
                            end) results
    /\ listener_calls w' = listener_calls w
    /\ http_posts w' = http_posts w
    /\ console_out w' = console_out w.
Proof.
  induction results as [|r results IH]; intros w; cbn [fold_left flat_map].
  - rewrite app_nil_r. auto.
  - cbv zeta in IH.
    destruct r as [v|e]; [apply IH|].
    destruct (isinstance_Exception e); [|apply IH].
    destruct (IH (print ("Error in listener: " ++ exn_str e)%string w))
      as (I1 & I2 & I3 & I4).
    rewrite I1, I2, I3, I4. cbn [print stdout listener_calls http_posts
                                 console_out].
    rewrite <- app_assoc. auto.
Qed.

(** X9.  One turn of the loop of [_process_events] on a queue that starts
    with [event]: the event leaves the queue and is handed to every
    listener, in the order of the dict, whatever the listeners before it
    did with it; what is printed is one line for each listener that failed
    with an [Exception]; nothing is posted. *)
Theorem turn_reaches_every_listener
        (self : AsyncEventBus.t) (event : Event) (q : list Event) (w : World) :
  AsyncEventBus._queue self = event :: q ->
  let '(self', w') := AsyncEventBus._process_events_turn self w in
  self' = AsyncEventBus.set_queue q self
  /\ listener_calls w'
     = listener_calls w
       ++ map (fun nl => CallHandle (fst nl) event)
              (AsyncEventBus.listeners self)
  /\ stdout w'
     = stdout w ++ listener_errors (AsyncEventBus.listeners self) event
  /\ http_posts w' = http_posts w
  /\ console_out w' = console_out w.
Proof.
  intros Hq. unfold AsyncEventBus._process_events_turn. rewrite Hq.
  pose proof (fan_out_calls (AsyncEventBus.listeners self) event w) as Hfan.
  destruct (AsyncEventBus.fan_out (AsyncEventBus.listeners self) event w)
    as [results w1] eqn:Hfo.
  assert (Hres : results
                 = map (fun nl => handle_event (snd nl) event)
                       (AsyncEventBus.listeners self))
    by (unfold AsyncEventBus.fan_out in Hfo; congruence).
  cbn [snd] in Hfan. subst w1.
  destruct (print_errors results
              (record_calls (map (fun nl => CallHandle (fst nl) event)
                                 (AsyncEventBus.listeners self)) w))
    as (P1 & P2 & P3 & P4).
  split; [reflexivity|]. rewrite P1, P2, P3, P4.
  split; [reflexivity|]. split; [|split; reflexivity].
  cbn [record_calls stdout]. f_equal.
  rewrite Hres. unfold listener_errors.
  generalize (AsyncEventBus.listeners self) as ls.
  induction ls as [|nl ls IH]; cbn [map flat_map]; [reflexivity|].
  rewrite IH. reflexivity.
Qed.

Lemma turn_reaches_every_listener_witness :
  let self := AsyncEventBus.set_queue
                [sample_event "a"; sample_event "b"]
                (running_bus None [("L1"%string, noisy_listener);
                                   ("L2"%string, recording_listener)]) in
  let '(self', w') :=
    AsyncEventBus._process_events_turn self
                                       (quiet_world answers_200 no_span) in
  AsyncEventBus._queue self' = [sample_event "b"]
  /\ listener_calls w' = [CallHandle "L1" (sample_event "a");
                          CallHandle "L2" (sample_event "a")]
  /\ stdout w' = ["Error in listener: boom"%string].
Proof.
  cbv zeta.
  pose proof (turn_reaches_every_listener
                (AsyncEventBus.set_queue
                   [sample_event "a"; sample_event "b"]
                   (running_bus None [("L1"%string, noisy_listener);
                                      ("L2"%string, recording_listener)]))
                (sample_event "a") [sample_event "b"]
                (quiet_world answers_200 no_span) eq_refl) as H.
  destruct (AsyncEventBus._process_events_turn _ _) as [self' w'].
  destruct H as (H1 & H2 & H3 & _).
  rewrite H1, H2, H3. repeat split.
Defined.

Lemma NoOpTransport_quiet : @quiet NoOpTransport.t _.
Proof. intros o event w. repeat split. Qed.

Lemma ConsoleTransport_quiet : @quiet ConsoleTransport.t _.
Proof.
  intros o event w. unfold outcome, world. simpl.
  unfold ConsoleTransport.send_event.
  destruct (data event); repeat split.
Qed.

Lemma emit_quiet (T : Type) (P : EventTransport T) (o : T)
      (self : AsyncEventBus.t) (event : Event) (w : World) :
  @quiet T P ->
  AsyncEventBus.transport self = @pack T P o ->
  AsyncEventBus._running self = true ->
  let '(r, _, self', w') := AsyncEventBus.emit self event w in
  r = Ok tt
  /\ AsyncEventBus._queue self'
     = AsyncEventBus._queue self
       ++ [AsyncEventBus.inject_tracing (get_current_span w) event]
  /\ AsyncEventBus.listeners self' = AsyncEventBus.listeners self
  /\ AsyncEventBus._task self' = AsyncEventBus._task self
  /\ AsyncEventBus._running self' = true
  /\ (exists o', AsyncEventBus.transport self' = @pack T P o')
  /\ listener_calls w' = listener_calls w
  /\ get_current_span w' = get_current_span w.
Proof.
  intros Hquiet Htr Hrun. unfold AsyncEventBus.emit.
  rewrite Hrun, Htr. cbn [negb].
  set (event' := AsyncEventBus.inject_tracing (get_current_span w) event).
  cbn [send_event AnyTransport_EventTransport].
  specialize (Hquiet o event' w). unfold outcome, world in Hquiet.
  destruct (send_event o event' w) as [[r o'] w1]. cbn [fst snd] in Hquiet.
  destruct Hquiet as (Hr & Hcalls & Hspan).
  unfold except_Exception.
  destruct r as [v|e]; [|rewrite Hr];
    cbn; repeat split; eauto.
Qed.

Lemma emits_quiet (T : Type) (P : EventTransport T) (es : list Event) :
  @quiet T P ->
  forall (o : T) (self : AsyncEventBus.t) (w : World),
    AsyncEventBus.transport self = @pack T P o ->
    AsyncEventBus._running self = true ->
    let '(self', w') := emits self es w in
    AsyncEventBus._queue self'
    = AsyncEventBus._queue self
      ++ map (AsyncEventBus.inject_tracing (get_current_span w)) es
    /\ AsyncEventBus.listeners self' = AsyncEventBus.listeners self
    /\ AsyncEventBus._task self' = AsyncEventBus._task self
    /\ AsyncEventBus._running self' = true
    /\ listener_calls w' = listener_calls w.
Proof.
  intros Hquiet. induction es as [|e es IH]; intros o self w Htr Hrun.
  - simpl. rewrite app_nil_r. auto.
  - cbn [emits].
    pose proof (emit_quiet T P o self e w Hquiet Htr Hrun) as Hemit.
    destruct (AsyncEventBus.emit self e w) as [[[r ev'] self1] w1].
    destruct Hemit as (_ & Hq & Hl & Ht & Hr & (o' & Htr') & Hc & Hs).
    specialize (IH o' self1 w1 Htr' Hr).
    destruct (emits self1 es w1) as [self' w'].
    destruct IH as (I1 & I2 & I3 & I4 & I5).
    rewrite I1, I2, I3, I5, Hq, Hl, Ht, Hc, Hs, <- app_assoc.
    repeat split; auto.
Qed.

(** X10.  With a transport that lets no exception but an [Exception] out
    (and leaves the listeners and the tracing context alone), on a running
    bus with its task whose listeners stop without failure: after any
    sequence of [emit]s, [stop] returns normally and by then every listener
    has been handed every event, those already queued and those emitted,
    each once, as stamped at its [emit] and in the order of the [emit]s;
    the queue is empty. *)
Theorem emitted_events_reach_every_listener
        (T : Type) (P : EventTransport T) (o : T)
        (self : AsyncEventBus.t) (es : list Event) (w : World) :
  @quiet T P ->
  AsyncEventBus.transport self = @pack T P o ->
  AsyncEventBus._running self = true ->
  AsyncEventBus._task self <> None ->
  forallb stops_cleanly (AsyncEventBus.listeners self) = true ->
  let '(self1, w1) := emits self es w in
  match AsyncEventBus.stop self1 w1 with
  | Some (r, self2, w2) =>
    r = Ok tt
    /\ AsyncEventBus._queue self2 = []
    /\ listener_calls w2
       = listener_calls w
         ++ deliveries (AsyncEventBus.listeners self)
                       (AsyncEventBus._queue self
                        ++ map (AsyncEventBus.inject_tracing
                                  (get_current_span w)) es)
         ++ map CallStop (lifecycle_names (AsyncEventBus.listeners self))
  | None => False
  end.
Proof.
  intros Hquiet Htr Hrun Htask Hclean.
  pose proof (emits_quiet T P es Hquiet o self w Htr Hrun) as Hemits.
  destruct (emits self es w) as [self1 w1].
  destruct Hemits as (Hq & Hl & Ht & Hr & Hc).
  rewrite (stop_clean self1 w1 Hr).
  - rewrite Hq, Hl. cbn [record_calls listener_calls]. rewrite Hc.
    repeat split.
  - congruence.
  - now rewrite Hl.
Qed.

Lemma emitted_events_reach_every_listener_witness :
  let self := running_bus (Some (pack ConsoleTransport.__init__))
                          [("L1"%string, noisy_listener);
                           ("L2"%string, quiet_listener)] in
  let '(self1, w1) := emits self [sample_event "a"; sample_event "b"]
                            (quiet_world answers_200 sampled_span) in
  match AsyncEventBus.stop self1 w1 with
  | Some (r, self2, w2) =>
    r = Ok tt
    /\ map (fun c => match c with
                     | CallHandle n e => (n, message e, trace_id e)
                     | CallStart n | CallStop n => (n, ""%string, None)
                     end) (listener_calls w2)
       = [("L1", "a", Some "0af7651916cd43dd8448eb211c80319c");
          ("L2", "a", Some "0af7651916cd43dd8448eb211c80319c");
          ("L1", "b", Some "0af7651916cd43dd8448eb211c80319c");
          ("L2", "b", Some "0af7651916cd43dd8448eb211c80319c");
          ("L2", "", None)]%string
  | None => False
  end.
Proof.
  cbv zeta.
  pose proof (emitted_events_reach_every_listener
                ConsoleTransport.t _ ConsoleTransport.__init__
                (running_bus (Some (pack ConsoleTransport.__init__))
                             [("L1"%string, noisy_listener);
                              ("L2"%string, quiet_listener)])
                [sample_event "a"; sample_event "b"]
                (quiet_world answers_200 sampled_span)
                ConsoleTransport_quiet eq_refl eq_refl
                ltac:(discriminate) eq_refl) as H.
  destruct (emits _ _ _) as [self1 w1].
  destruct (AsyncEventBus.stop self1 w1) as [[[r self2] w2]|]; [|exact H].
  destruct H as (Hr & _ & Hcalls).
  split; [exact Hr|]. rewrite Hcalls. reflexivity.
Defined.

(** ** More on HTTPTransport *)

Lemma post_batch_raises (handler : exn -> World -> World)
      (self : HTTPTransport.t) (w : World) :
  raises (fst (except_Exception handler (HTTPTransport.post_batch self w)))
  = negb (contained (next_answer w)).
Proof.
  unfold contained, next_answer, HTTPTransport.post_batch, session_post.
  destruct (endpoint_answer w _) as [status [text|e]|e].
  - destruct (400 <=? status); reflexivity.
  - destruct (400 <=? status); simpl; [|reflexivity].
    destruct (isinstance_Exception e); reflexivity.
  - simpl. destruct (isinstance_Exception e); reflexivity.
Qed.

Lemma flush_raises (self : HTTPTransport.t) (w : World) :
  raises (outcome (HTTPTransport._flush self w))
  = negb (is_empty (HTTPTransport.batch self))
    && negb (contained (next_answer w)).
Proof.
  unfold HTTPTransport._flush.
  destruct (HTTPTransport.batch self); [reflexivity|].
  match goal with
  | |- context [except_Exception ?h ?rw] =>
    pose proof (post_batch_raises h
                  (match HTTPTransport._session self with
                   | Some _ => self
                   | None => HTTPTransport.start self
                   end) w) as Hp;
      destruct (except_Exception h rw) as [r w']
  end.
  exact Hp.
Qed.

(** X11.  When the transport raises: [_flush] raises exactly when the
    buffer is not empty and an exception that is not an [Exception] comes
    out of the request (or of reading the body of an answer of 400 or
    more); [send_event] raises exactly when the call reaches the batch size
    and that happens; [stop] exactly when [_flush] does. *)
Theorem http_raises_exactly_when
        (self : HTTPTransport.t) (event : Event) (w : World) :
  raises (outcome (HTTPTransport._flush self w))
  = negb (is_empty (HTTPTransport.batch self))
    && negb (contained (next_answer w))
  /\ raises (outcome (HTTPTransport.send_event self event w))
     = (HTTPTransport.batch_size self
        <=? Z.of_nat (List.length (HTTPTransport.batch self)) + 1)
       && negb (contained (next_answer w))
  /\ raises (outcome (HTTPTransport.stop self w))
     = raises (outcome (HTTPTransport._flush self w)).
Proof.
  split; [apply flush_raises|]. split.
  - unfold HTTPTransport.send_event.
    cbn [HTTPTransport.set_batch HTTPTransport.batch HTTPTransport.batch_size].
    rewrite length_app. cbn [List.length].
    replace (Z.of_nat (List.length (HTTPTransport.batch self) + 1))
      with (Z.of_nat (List.length (HTTPTransport.batch self)) + 1) by lia.
    destruct (HTTPTransport.batch_size self <=? _); [|reflexivity].
    rewrite flush_raises.
    cbn [HTTPTransport.set_batch HTTPTransport.batch].
    destruct (HTTPTransport.batch self); reflexivity.
  - unfold HTTPTransport.stop.
    destruct (HTTPTransport.batch self) as [|ev evs] eqn:Hb.
    + unfold HTTPTransport._flush. rewrite Hb.
      destruct (HTTPTransport._session self); reflexivity.
    + destruct (HTTPTransport._flush self w) as [[[v|e] s1] w1];
        [destruct (HTTPTransport._session s1)|]; reflexivity.
Qed.

(** X12.  A [stop] that returns normally leaves the buffer empty and the
    session closed, and [stop] is then idempotent: stopping again returns
    normally, posts nothing and changes nothing. *)
Theorem http_stop_closes (self : HTTPTransport.t) (w : World) :
  outcome (HTTPTransport.stop self w) = Ok tt ->
  HTTPTransport.batch (object (HTTPTransport.stop self w)) = []
  /\ HTTPTransport._session (object (HTTPTransport.stop self w)) = None
  /\ HTTPTransport.stop (object (HTTPTransport.stop self w))
                        (world (HTTPTransport.stop self w))
     = (Ok tt, object (HTTPTransport.stop self w),
        world (HTTPTransport.stop self w)).
Proof.
  intros Hok.
  pose proof (stop_posts self w) as Hposts.
  destruct (HTTPTransport.stop self w) as [[r s2] w2] eqn:Hstop.
  unfold outcome, object, world in *. cbn [fst snd] in *. subst r.
  destruct Hposts as [Hnil _].
  assert (Hsess : HTTPTransport._session s2 = None).
  { unfold HTTPTransport.stop in Hstop.
    destruct (match HTTPTransport.batch self with
              | [] => (Ok tt, self, w)
              | _ :: _ => HTTPTransport._flush self w
              end) as [[[v|e] s1] w1]; [|discriminate Hstop].
    destruct (HTTPTransport._session s1) eqn:Hs1;
      injection Hstop as <- <-; [reflexivity|exact Hs1]. }
  split; [exact Hnil|]. split; [exact Hsess|].
  unfold HTTPTransport.stop. rewrite Hnil, Hsess. reflexivity.
Qed.

Lemma http_stop_closes_witness :
  let '(self, w) := send_events (sample_http 2)
                                [sample_event "a"; sample_event "b";
                                 sample_event "c"]
                                (quiet_world answers_500 no_span) in
  HTTPTransport.batch (object (HTTPTransport.stop self w)) = []
  /\ HTTPTransport._session (object (HTTPTransport.stop self w)) = None
  /\ List.length (http_posts (world (HTTPTransport.stop self w))) = 2%nat.
Proof.
  destruct (send_events _ _ _) as [self w] eqn:Hsend.
  vm_compute in Hsend. injection Hsend as <- <-.
  match goal with
  | |- HTTPTransport.batch (object (HTTPTransport.stop ?s ?w)) = [] /\ _ =>
    destruct (http_stop_closes s w eq_refl) as (H1 & H2 & _)
  end.
  split; [exact H1|]. split; [exact H2|reflexivity].
Defined.

(** X13.  How many requests: on a new transport with a batch size [b] of
    at least one, after [n] calls of [send_event] there have been [n / b]
    requests, all to the endpoint and each with exactly [b] records, and
    [n mod b] events are in the buffer. *)
Theorem full_batches
        (url : string) (headers : option (list (string * string)))
        (b : Z) (timeout : float) (es : list Event) (w : World) :
  1 <= b ->
  let '(self', w') :=
    send_events (HTTPTransport.__init__ url headers b timeout) es w in
  exists posts : list Post,
    http_posts w' = http_posts w ++ posts
    /\ Z.of_nat (List.length posts) = Z.of_nat (List.length es) / b
    /\ Forall (fun p => post_url p = url
                        /\ Z.of_nat (List.length (post_json p)) = b) posts
    /\ Z.of_nat (List.length (HTTPTransport.batch self'))
       = Z.of_nat (List.length es) mod b.
Proof.
  intros Hb.
  set (self0 := HTTPTransport.__init__ url headers b timeout).
  assert (H0 : Z.of_nat (List.length (HTTPTransport.batch self0))
               < Z.max 1 (HTTPTransport.batch_size self0))
    by (simpl; lia).
  induction es as [|e es IH] using rev_ind.
  - exists []. simpl. rewrite app_nil_r, Z.mod_0_l by lia.
    repeat split; auto.
  - rewrite send_events_app.
    pose proof (send_events_inv es self0 w H0) as Hinv.
    destruct (send_events self0 es w) as [s1 w1].
    destruct Hinv as (I1 & I2 & _).
    change (HTTPTransport.batch_size self0) with b in I1.
    change (HTTPTransport.endpoint self0) with url in I2.
    destruct IH as (posts & Hposts & Hlen & Hall & Hbuf).
    pose proof (send_event_step s1 e w1) as Hstep.
    destruct (HTTPTransport.send_event s1 e w1) as [[r s2] w2].
    destruct Hstep as (_ & _ & Hc). rewrite I1, I2 in Hc.
    rewrite length_app. cbn [List.length].
    set (n := Z.of_nat (List.length es)) in *.
    replace (Z.of_nat (List.length es + 1)) with (n + 1) by lia.
    pose proof (Z.div_mod n b ltac:(lia)) as Hdm.
    pose proof (Z.mod_pos_bound n b ltac:(lia)) as Hmb.
    destruct (b <=? _) eqn:Hcmp.
    + apply Z.leb_le in Hcmp. destruct Hc as [Hnil Hp].
      exists (posts ++ [mkPost url (map HTTPTransport.to_record
                                        (HTTPTransport.batch s1 ++ [e]))]).
      assert (Hq : (n + 1) / b = n / b + 1)
        by (symmetry; apply Z.div_unique with (r := 0); lia).
      assert (Hm : (n + 1) mod b = 0)
        by (symmetry; apply Z.mod_unique with (q := n / b + 1); lia).
      rewrite Hp, Hposts, Hnil, Hq, Hm, <- app_assoc, length_app.
      cbn [List.length]. repeat split; try lia.
      apply Forall_app. split; [exact Hall|].
      constructor; [|constructor]. cbn [post_url post_json].
      split; [reflexivity|]. rewrite length_map, length_app.
      cbn [List.length]. lia.
    + apply Z.leb_gt in Hcmp. destruct Hc as [Hbatch Hp].
      exists posts.
      assert (Hq : (n + 1) / b = n / b)
        by (symmetry; apply Z.div_unique with (r := n mod b + 1); lia).
      assert (Hm : (n + 1) mod b = n mod b + 1)
        by (symmetry; apply Z.mod_unique with (q := n / b); lia).
      rewrite Hp, Hbatch, Hq, Hm, length_app. cbn [List.length].
      repeat split; auto; lia.
Qed.

Lemma full_batches_witness :
  let '(self', w') :=
    send_events (HTTPTransport.__init__ "http://logs.example/ingest" None 2
                                        5%float)
                [sample_event "a"; sample_event "b"; sample_event "c";
                 sample_event "d"; sample_event "e"]
                (quiet_world connection_refused no_span) in
  List.length (http_posts w') = 2%nat
  /\ List.length (HTTPTransport.batch self') = 1%nat.
Proof.
  pose proof (full_batches
                "http://logs.example/ingest" None 2 5%float
                [sample_event "a"; sample_event "b"; sample_event "c";
                 sample_event "d"; sample_event "e"]
                (quiet_world connection_refused no_span)
                ltac:(lia)) as H.
  destruct (send_events _ _ _) as [self' w'].
  destruct H as (posts & Hposts & Hlen & _ & Hbuf).
  rewrite Hposts. cbn [quiet_world http_posts app].
  change (Z.of_nat (List.length
                      [sample_event "a"; sample_event "b"; sample_event "c";
                       sample_event "d"; sample_event "e"]) / 2)
    with 2 in Hlen.
  change (Z.of_nat (List.length
                      [sample_event "a"; sample_event "b"; sample_event "c";
                       sample_event "d"; sample_event "e"]) mod 2)
    with 1 in Hbuf.
  split; lia.
Defined.

(** X14.  The session is opened by the first flush and kept: a [send_event]
    that does not reach the batch size leaves the session as it is; one
    that does leaves a session open, the one there was or else a new one
    with the headers and the timeout of the transport. *)
Theorem session_opened_by_flush
        (self : HTTPTransport.t) (event : Event) (w : World) :
  HTTPTransport._session (object (HTTPTransport.send_event self event w))
  = if HTTPTransport.batch_size self
       <=? Z.of_nat (List.length (HTTPTransport.batch self)) + 1
    then Some match HTTPTransport._session self with
              | Some s => s
              | None => HTTPTransport.mkSession (HTTPTransport.headers self)
                                                (HTTPTransport.timeout self)
              end
    else HTTPTransport._session self.
Proof.
  unfold HTTPTransport.send_event.
  cbn [HTTPTransport.set_batch HTTPTransport.batch HTTPTransport.batch_size].
  rewrite length_app. cbn [List.length].
  replace (Z.of_nat (List.length (HTTPTransport.batch self) + 1))
    with (Z.of_nat (List.length (HTTPTransport.batch self)) + 1) by lia.
  destruct (HTTPTransport.batch_size self <=? _); [|reflexivity].
  unfold HTTPTransport._flush.
  cbn [HTTPTransport.set_batch HTTPTransport.batch HTTPTransport._session].
  destruct (HTTPTransport.batch self ++ [event]) as [|ev evs] eqn:Happ;
    [apply app_eq_nil in Happ; destruct Happ; discriminate|].
  destruct (except_Exception _ _) as [r w'].
  unfold object, HTTPTransport.start.
  cbn [fst snd].
  destruct self as [ep hd bs tm ba [s|]]; reflexivity.
Qed.

(** ** The bus over an HTTPTransport *)

Lemma except_Exception_raise (handler : exn -> World -> World)
      (rw : Result unit * World) (e : exn) :
  fst (except_Exception handler rw) = Raise e ->
  isinstance_Exception e = false /\ snd (except_Exception handler rw) = snd rw.
Proof.
  destruct rw as [[v|e0] w]; simpl; [discriminate|].
  destruct (isinstance_Exception e0) eqn:He; simpl; [discriminate|].
  intros H. injection H as <-. auto.
Qed.

Lemma except_Exception_span (handler : exn -> World -> World)
      (rw : Result unit * World) :
  (forall e w, get_current_span (handler e w) = get_current_span w) ->
  get_current_span (snd (except_Exception handler rw))
  = get_current_span (snd rw).
Proof.
  intros Hh. destruct rw as [[v|e] w]; simpl; [reflexivity|].
  destruct (isinstance_Exception e); simpl; auto.
Qed.

Lemma post_batch_span (self : HTTPTransport.t) (w : World) :
  get_current_span (snd (HTTPTransport.post_batch self w))
  = get_current_span w.
Proof.
  unfold HTTPTransport.post_batch, session_post.
  destruct (endpoint_answer w _) as [status [text|e]|e]; simpl;
    try destruct (400 <=? status); reflexivity.
Qed.

(** What comes out of [send_event] is never an [Exception], and the
    tracing context is as before. *)
Lemma http_send_event_escape
      (self : HTTPTransport.t) (event : Event) (w : World) :
  match outcome (HTTPTransport.send_event self event w) with
  | Ok _ => True
  | Raise e => isinstance_Exception e = false
  end
  /\ get_current_span (world (HTTPTransport.send_event self event w))
     = get_current_span w.
Proof.
  unfold HTTPTransport.send_event.
  destruct (_ <=? _); [|split; [exact I|reflexivity]].
  unfold HTTPTransport._flush.
  destruct (HTTPTransport.batch _); [split; [exact I|reflexivity]|].
  match goal with
  | |- context [except_Exception ?h ?rw] =>
    pose proof (except_Exception_raise h rw) as Hr;
      pose proof (except_Exception_span h rw (fun _ _ => eq_refl)) as Hs;
      rewrite post_batch_span in Hs;
      destruct (except_Exception h rw) as [r w']
  end.
  unfold outcome, world. cbn [fst snd] in *.
  split; [|exact Hs].
  destruct r as [v|x]; [exact I|]. apply (Hr x eq_refl).
Qed.

(** X15.  A bus whose transport is an [HTTPTransport]: a sequence of
    [emit]s on the running bus does to the transport and to the world
    exactly what the same sequence of [send_event]s does, for the events as
    stamped: the transport is given every event, once, in the order of the
    [emit]s, whatever the endpoint answers, and [emit] itself prints
    nothing. *)
Theorem http_bus_sends_in_emit_order
        (o : HTTPTransport.t) (self : AsyncEventBus.t)
        (es : list Event) (w : World) :
  AsyncEventBus.transport self = pack o ->
  AsyncEventBus._running self = true ->
  AsyncEventBus.transport (fst (emits self es w))
  = pack (fst (send_events
                 o (map (AsyncEventBus.inject_tracing (get_current_span w))
                        es) w))
  /\ snd (emits self es w)
     = snd (send_events
              o (map (AsyncEventBus.inject_tracing (get_current_span w)) es)
              w).
Proof.
  revert o self w. induction es as [|e es IH]; intros o self w Htr Hrun.
  - simpl. auto.
  - cbn [emits map send_events].
    set (e' := AsyncEventBus.inject_tracing (get_current_span w) e).
    pose proof (http_send_event_escape o e' w) as [Hesc Hspan].
    assert (Hemit : exists r q,
               AsyncEventBus.emit self e w
               = (r, e',
                  AsyncEventBus.set_queue q
                    (AsyncEventBus.set_transport
                       (pack (object (HTTPTransport.send_event o e' w))) self),
                  world (HTTPTransport.send_event o e' w))).
    { unfold AsyncEventBus.emit. rewrite Hrun, Htr. cbn [negb].
      fold e'. cbn [send_event AnyTransport_EventTransport
                               HTTPTransport_EventTransport].
      unfold outcome, object, world in *.
      destruct (HTTPTransport.send_event o e' w) as [[[v|x] o1] w1];
        cbn [fst snd except_Exception] in *.
      - eexists _, _. reflexivity.
      - rewrite Hesc. exists (Raise x), (AsyncEventBus._queue self).
        destruct self. reflexivity. }
    destruct Hemit as (r & q & Hemit). rewrite Hemit.
    unfold object, world in *.
    destruct (HTTPTransport.send_event o e' w) as [[r1 o1] w1].
    cbn [fst snd] in *. rewrite <- Hspan.
    apply IH; [reflexivity|exact Hrun].
Qed.

Lemma http_bus_sends_in_emit_order_witness :
  let self := running_bus (Some (pack (sample_http 2))) [] in
  let w := quiet_world connection_refused sampled_span in
  map (fun p => map Wire.message (post_json p))
      (http_posts (snd (emits self [sample_event "a"; sample_event "b";
                                    sample_event "c"] w)))
  = [["a"; "b"]]%string
  /\ stdout (snd (emits self [sample_event "a"; sample_event "b";
                              sample_event "c"] w))
     = ["Error sending log events to http://logs.example/ingest: Cannot connect to host"%string].
Proof.
  cbv zeta.
  rewrite (proj2 (http_bus_sends_in_emit_order
                    (sample_http 2)
                    (running_bus (Some (pack (sample_http 2))) [])
                    [sample_event "a"; sample_event "b"; sample_event "c"]
                    (quiet_world connection_refused sampled_span)
                    eq_refl eq_refl)).
  split; reflexivity.
Defined.

(** ** ConsoleTransport *)


(** X17.  The levels of the console: with the styles of [__init__], the
    header of the line is the level in upper case between brackets, in the
    style of the level for [info], [debug], [warning] and [error] and in
    white for any other level. *)
Theorem console_header_style (event : Event) (w : World) :
  exists rest,
    console_out (world (ConsoleTransport.send_event ConsoleTransport.__init__
                                                    event w))
    = console_out w
      ++ ConsoleText
           ((("[" ++ upper (type event) ++ "] ")%string,
             if String.eqb (type event) "info" then "bold green"%string
             else if String.eqb (type event) "debug" then "dim white"%string
             else if String.eqb (type event) "warning"
                  then "bold yellow"%string
             else if String.eqb (type event) "error" then "bold red"%string
             else "white"%string)
              :: fst rest)
        :: snd rest.
Proof.
  unfold ConsoleTransport.send_event, world.
  cbn [snd ConsoleTransport.__init__ ConsoleTransport.log_level_styles
       dict_get].
  rewrite !(String.eqb_sym _ (type event)).
  destruct (data event) as [|d ds].
  - eexists (_, []). cbn [console_print console_out fst snd]. reflexivity.
  - eexists (_, [_]). cbn [console_print console_out fst snd].
    rewrite <- app_assoc. reflexivity.
Qed.

(** ** The singleton *)

(** X18.  [get] gives a singleton: whatever there was and whatever
    transport is passed, the object returned is the instance that is kept,
    and a later [get()] returns that same object, unchanged.  The first
    [get] makes a bus that is not running, with no listener, an empty
    queue, no task, and the transport passed or else a [NoOpTransport]. *)
Theorem get_is_a_singleton
        (_instance : option AsyncEventBus.t)
        (transport : option AnyTransport) :
  let '(kept, returned) := AsyncEventBus.get _instance transport in
  kept = Some returned
  /\ AsyncEventBus.get kept None = (kept, returned)
  /\ (_instance = None ->
      returned
      = AsyncEventBus.mk match transport with
                         | Some tr => tr
                         | None => pack NoOpTransport.mk
                         end [] [] None false false).
Proof.
  destruct _instance as [self|]; destruct transport as [tr|]; simpl;
    repeat split; discriminate.
Qed.

Lemma get_is_a_singleton_witness :
  let '(kept, returned) := AsyncEventBus.get None None in
  returned = AsyncEventBus.mk (pack NoOpTransport.mk) [] [] None false false
  /\ AsyncEventBus.get kept (Some failing_transport)
     = (Some (AsyncEventBus.set_transport failing_transport returned),
        AsyncEventBus.set_transport failing_transport returned).
Proof.
  pose proof (get_is_a_singleton None None) as H.
  destruct (AsyncEventBus.get None None) as [kept returned].
  destruct H as (Hk & _ & Hr). rewrite Hk. split.
  - apply Hr. reflexivity.
  - reflexivity.
Defined.
